(** * web-service-stdlib: the album server of [main.go]

    A shallow embedding of the album HTTP server (the variant with the
    structured JSON error envelope) and of its in-memory database.

    Conventions of the embedding:
    - Go [string] is [string] (a sequence of bytes); [<] on strings is the
      bytewise lexicographic order, [String.ltb].
    - Go [int] is [Z]; the only integer operations of the program are
      comparisons, and [json.Unmarshal] rejects literals outside 64 bits.
    - [map[string]Album] is [gmap string Album]; iterating over a Go map
      visits the entries in an unspecified order, so the iteration order is
      made explicit wherever the code ranges over a map.
    - a Go [error] result is [option error], [None] for [nil].
    - the [http.ResponseWriter] is threaded through the handlers as a value.
    - every method of [MemoryDatabase] runs under the lock for its whole
      body, so a method is one atomic step on the map.
    - [log.Printf] calls have no influence on responses or on the store and
      are left out. *)

From Stdlib Require Import ZArith String Ascii List Sorted Permutation Lia Bool.
From stdpp Require Import base option gmap strings pretty list sorting.

Local Open Scope Z_scope.
Local Open Scope list_scope.
#[local] Set Warnings "-register-all".

(** ** Errors *)

(** The two sentinel errors of [main.go], any other error created with
    [errors.New], and an error wrapping another one (as [fmt.Errorf] with
    [%w] builds), which [errors.Is] looks through. *)
Inductive error : Type :=
| ErrDoesNotExist
| ErrAlreadyExists
| errors_New (msg : string)
| Wrap (msg : string) (inner : error).

#[global] Instance error_eq_dec : EqDecision error.
Proof. solve_decision. Defined.

(** The [Unwrap] chain of [errors.Is]: [err] is [target], or wraps an
    error that is. *)
Fixpoint errors_Is_chain (err target : error) : bool :=
  bool_decide (err = target) ||
  match err with
  | Wrap _ inner => errors_Is_chain inner target
  | _ => false
  end.

(** [errors.Is(err, target)] for a non-nil [target]. *)
Definition errors_Is (err : option error) (target : error) : bool :=
  match err with
  | None => false
  | Some e => errors_Is_chain e target
  end.

(** Error kinds of the JSON envelope. *)
Definition ErrorAlreadyExists : string := "already-exists".
Definition ErrorDatabase : string := "database".
Definition ErrorInternal : string := "internal".
Definition ErrorMalformedJSON : string := "malformed-json".
Definition ErrorMethodNotAllowed : string := "method-not-allowed".
Definition ErrorNotFound : string := "not-found".
Definition ErrorValidation : string := "validation".

(** Status codes of [net/http] used by the server. *)
Definition StatusOK : Z := 200.
Definition StatusCreated : Z := 201.
Definition StatusBadRequest : Z := 400.
Definition StatusNotFound : Z := 404.
Definition StatusMethodNotAllowed : Z := 405.
Definition StatusConflict : Z := 409.
Definition StatusInternalServerError : Z := 500.

(** ** Album *)

Record Album : Type := mkAlbum {
  ID : string;
  Title : string;
  Artist : string;
  Price : Z
}.

(** [Album{}], the zero value. *)
Definition Album_zero : Album := mkAlbum "" "" "" 0.

#[global] Instance Album_eq_dec : EqDecision Album.
Proof. solve_decision. Defined.

(** ** Sorting, as [sort.Slice] is used

    [sort.Slice(s, less)] permutes [s] so that it is ordered by [less].
    It is modelled by insertion from the right; [sort.Slice] is not
    stable, which is immaterial when no two elements are equivalent for
    [less] (lemma [sort_Slice_unique] below). *)
Section Sort.
Context {A : Type} (less : A → A → bool).

Fixpoint sort_place (x : A) (l : list A) : list A :=
  match l with
  | [] => [x]
  | y :: l' => if less x y then x :: l else y :: sort_place x l'
  end.

Definition sort_Slice (l : list A) : list A := foldr sort_place [] l.
End Sort.

(** ** The database interface and the in-memory database *)

(** A Go slice value: [None] is the nil slice. *)
Definition slice (A : Type) : Type := option (list A).

(** [Database]: the three methods over some state of the implementation.
    Every method may change that state (the receiver is behind the
    interface). *)
Record Database : Type := mkDatabase {
  db_state : Type;
  db_GetAlbums : db_state → (slice Album * option error) * db_state;
  db_GetAlbumByID : string → db_state → (Album * option error) * db_state;
  db_AddAlbum : Album → db_state → option error * db_state
}.

Module MemoryDatabase.

(** The field [albums]. *)
Abbreviation t := (gmap string Album).

Definition NewMemoryDatabase : t := ∅.

(** [albums[i].ID < albums[j].ID] *)
Definition less (a b : Album) : bool := String.ltb (ID a) (ID b).

(** The body of [GetAlbums] once the [range] loop visits the entries in
    the order [visit]: the values are appended, then sorted by ID. *)
Definition GetAlbums_visiting (visit : list (string * Album)) : list Album :=
  let albums := foldl (λ albums kv, albums ++ [kv.2]) [] visit in
  sort_Slice less albums.

Definition GetAlbums (d : t) : slice Album * option error :=
  (Some (GetAlbums_visiting (map_to_list d)), None).

Definition GetAlbumByID (id : string) (d : t) : Album * option error :=
  match d !! id with
  | None => (Album_zero, Some ErrDoesNotExist)
  | Some album => (album, None)
  end.

Definition AddAlbum (album : Album) (d : t) : option error * t :=
  match d !! ID album with
  | Some _ => (Some ErrAlreadyExists, d)
  | None => (None, <[ID album := album]> d)
  end.

(** The methods as an implementation of [Database]. *)
Definition database : Database :=
  {| db_state := t;
     db_GetAlbums := λ d, (GetAlbums d, d);
     db_GetAlbumByID := λ id d, (GetAlbumByID id d, d);
     db_AddAlbum := AddAlbum |}.

(** Every entry is stored under its own ID: the invariant of every map
    built by [NewMemoryDatabase] and [AddAlbum]. *)
Definition keyed_by_ID (d : t) : Prop :=
  ∀ k a, d !! k = Some a → ID a = k.

(** A run of [AddAlbum] calls, errors ignored (as [main] does). *)
Definition AddAlbums (l : list Album) (d : t) : t :=
  foldl (λ d a, (AddAlbum a d).2) d l.

End MemoryDatabase.

(** ** JSON values

    The abstract syntax of a JSON text.  A number literal without
    fraction and exponent is [JInt]; any other number literal is kept as
    its text.  Objects keep their members in order, duplicates included.
    The text itself (indentation, escaping) is not modelled: a response
    body is given by the value that [json.MarshalIndent] renders, and a
    request body by the value that its bytes denote. *)
Inductive json : Type :=
| JNull
| JBool (b : bool)
| JInt (z : Z)
| JFloat (lit : string)
| JString (s : string)
| JArray (elems : list json)
| JObject (members : list (string * json)).

(** *** Encoding ([json.MarshalIndent]) *)

(** [validationIssue], local to [addAlbum]. *)
Record validationIssue : Type := mkIssue {
  issue_Error : string;
  issue_Message : string
}.

(** What the handlers put into a [map[string]interface{}]. *)
Inductive dataval : Type :=
| DIssue (i : validationIssue)
| DString (s : string).

(** What the handlers pass to [writeJSON] as [v interface{}]: a slice of
    albums, an album, or the anonymous response struct of [jsonError].
    [Data] is [None] for a nil map. *)
Inductive value : Type :=
| VAlbums (albums : slice Album)
| VAlbum (album : Album)
| VResponse (Status : Z) (Error : string) (Data : option (gmap string dataval)).

(** A field tagged [omitempty] is left out when it is the zero value of
    its type (0, the empty string, a nil or empty map). *)
Definition omitempty_int (name : string) (n : Z) : list (string * json) :=
  if n =? 0 then [] else [(name, JInt n)].

Definition omitempty_string (name : string) (s : string) : list (string * json) :=
  if String.eqb s "" then [] else [(name, JString s)].

Definition Marshal_Album (a : Album) : json :=
  JObject ([("id"%string, JString (ID a));
            ("title"%string, JString (Title a));
            ("artist"%string, JString (Artist a))]
           ++ omitempty_int "price" (Price a)).

Definition Marshal_validationIssue (i : validationIssue) : json :=
  JObject ([("error"%string, JString (issue_Error i))]
           ++ omitempty_string "message" (issue_Message i)).

Definition Marshal_dataval (d : dataval) : json :=
  match d with
  | DIssue i => Marshal_validationIssue i
  | DString s => JString s
  end.

(** A map is encoded as an object with its keys sorted. *)
Definition key_less (x y : string * json) : bool := String.ltb x.1 y.1.

Definition Marshal_map (m : gmap string dataval) : json :=
  JObject (sort_Slice key_less (map_to_list (Marshal_dataval <$> m))).

Definition omitempty_map (name : string) (m : option (gmap string dataval))
  : list (string * json) :=
  match m with
  | None => []
  | Some m => if bool_decide (size m = 0%nat) then [] else [(name, Marshal_map m)]
  end.

(** [json.MarshalIndent(v, "", "    ")]: the encoded value, or an error.
    None of the three shapes of [v] contains anything the encoder
    rejects, so the result is always a value. *)
Definition json_MarshalIndent (v : value) : json + error :=
  match v with
  | VAlbums None => inl JNull
  | VAlbums (Some l) => inl (JArray (Marshal_Album <$> l))
  | VAlbum a => inl (Marshal_Album a)
  | VResponse status kind data =>
      inl (JObject ([("status"%string, JInt status); ("error"%string, JString kind)]
                    ++ omitempty_map "data" data))
  end.

(** *** Decoding ([json.Unmarshal] into an [Album])

    A member of the request object is matched to a field of the struct
    by its key: an exact match with the field's JSON name, or else a
    match under case folding.  With ASCII field names, the only
    characters that fold onto a letter of a name are the letter in
    either case, U+017F (long s) for [s] and U+212A (Kelvin sign) for
    [k]. *)

Inductive field : Type := FID | FTitle | FArtist | FPrice.

Definition fields : list field := [FID; FTitle; FArtist; FPrice].

Definition field_name (f : field) : string :=
  match f with
  | FID => "id" | FTitle => "title" | FArtist => "artist" | FPrice => "price"
  end.

Definition field_type (f : field) : string :=
  match f with FPrice => "int" | _ => "string" end.

Definition upper (c : ascii) : ascii :=
  let n := N_of_ascii c in
  if ((97 <=? n) && (n <=? 122))%N then ascii_of_N (n - 32) else c.

(** [foldName] on the bytes of a key.  Bytes of other multi-byte
    characters are kept: they never equal a byte of a folded ASCII name,
    which is all the field lookup compares with. *)
Fixpoint foldName (key : string) : string :=
  match key with
  | EmptyString => EmptyString
  | String "197" (String "191" rest) => String "S" (foldName rest)
  | String "226" (String "132" (String "170" rest)) => String "K" (foldName rest)
  | String c rest => String (upper c) (foldName rest)
  end.

Definition lookup_field (key : string) : option field :=
  match List.find (λ f, String.eqb (field_name f) key) fields with
  | Some f => Some f
  | None =>
      List.find (λ f, String.eqb (foldName (field_name f)) (foldName key)) fields
  end.

(** [UnmarshalTypeError]: a JSON value of kind [Value] does not fit the
    Go type; [Field] is [None] when the mismatch is at the top level. *)
Record UnmarshalTypeError : Type := mkTypeError {
  ute_Value : string;
  ute_Field : option field
}.

Definition json_kind (v : json) : string :=
  match v with
  | JNull => "null"
  | JBool _ => "bool"
  | JInt _ | JFloat _ => "number"
  | JString _ => "string"
  | JArray _ => "array"
  | JObject _ => "object"
  end.

Definition in_int64 (z : Z) : bool := (- 2 ^ 63 <=? z) && (z <? 2 ^ 63).

Definition set_field (f : field) (v : json) (a : Album) : Album + UnmarshalTypeError :=
  match f, v with
  | _, JNull => inl a
  | FID, JString s => inl (mkAlbum s (Title a) (Artist a) (Price a))
  | FTitle, JString s => inl (mkAlbum (ID a) s (Artist a) (Price a))
  | FArtist, JString s => inl (mkAlbum (ID a) (Title a) s (Price a))
  | FPrice, JInt z =>
      if in_int64 z then inl (mkAlbum (ID a) (Title a) (Artist a) z)
      else inr (mkTypeError ("number " +:+ pretty z) (Some f))
  | FPrice, JFloat lit => inr (mkTypeError ("number " +:+ lit) (Some f))
  | _, _ => inr (mkTypeError (json_kind v) (Some f))
  end.

(** One member of the object: unknown keys are skipped; a value that does
    not fit leaves the field as it is, and the earliest such mismatch is
    the error reported at the end. *)
Definition decode_member (st : Album * option UnmarshalTypeError) (kv : string * json)
  : Album * option UnmarshalTypeError :=
  match lookup_field kv.1 with
  | None => st
  | Some f =>
      match set_field f kv.2 st.1 with
      | inl a => (a, st.2)
      | inr e => (st.1, match st.2 with Some e0 => Some e0 | None => Some e end)
      end
  end.

(** [json.Unmarshal(b, &album)] for bytes that are the text of [v]. *)
Definition json_Unmarshal (v : json) (album : Album) : Album * option UnmarshalTypeError :=
  match v with
  | JNull => (album, None)
  | JObject members => foldl decode_member (album, None) members
  | _ => (album, Some (mkTypeError (json_kind v) None))
  end.

(** [err.Error()] of an [UnmarshalTypeError]. *)
Definition UnmarshalTypeError_Error (e : UnmarshalTypeError) : string :=
  match ute_Field e with
  | Some f =>
      "json: cannot unmarshal " +:+ ute_Value e +:+ " into Go struct field Album."
        +:+ field_name f +:+ " of type " +:+ field_type f
  | None =>
      "json: cannot unmarshal " +:+ ute_Value e +:+ " into Go value of type main.Album"
  end.

(** ** Requests and responses *)

(** The bytes of a request body, by what the syntax check at the start of
    [json.Unmarshal] makes of them: not a JSON text (with the diagnostic
    of the syntax error), or the text of a value. *)
Inductive bytes : Type :=
| Malformed (diagnostic : string)
| TextOf (v : json).

(** [r.Body]: a reader that fails, or one that delivers its bytes. *)
Inductive Reader : Type :=
| ErrReader (e : error)
| BytesReader (b : bytes).

(** [io.ReadAll(r.Body)]: the bytes, or the error of the reader. *)
Definition io_ReadAll (r : Reader) : bytes + error :=
  match r with
  | ErrReader e => inr e
  | BytesReader b => inl b
  end.

Inductive json_error : Type :=
| SyntaxError (msg : string)
| TypeError (e : UnmarshalTypeError).

Definition json_error_Error (e : json_error) : string :=
  match e with
  | SyntaxError msg => msg
  | TypeError e => UnmarshalTypeError_Error e
  end.

(** [json.Unmarshal(b, &album)]: the album as the call leaves it, and the
    error. *)
Definition Unmarshal (b : bytes) (album : Album) : Album * option json_error :=
  match b with
  | Malformed msg => (album, Some (SyntaxError msg))
  | TextOf v =>
      let '(album, err) := json_Unmarshal v album in (album, TypeError <$> err)
  end.

Record Request : Type := mkRequest {
  Method : string;
  URL_Path : string;
  Body : Reader
}.

(** What has been written to the response: the indented text of a JSON
    value, or plain text. *)
Inductive content : Type :=
| Indented (v : json)
| Plain (s : string).

(** The response under construction: the header map, the status code
    once [WriteHeader] has run, and the body written so far. *)
Record ResponseWriter : Type := mkWriter {
  Header : gmap string string;
  Code : option Z;
  Written : list content
}.

Definition NewRecorder : ResponseWriter := mkWriter ∅ None [].

(** [w.Header().Set(k, v)] and [w.Header().Del(k)]; the header of the
    response is fixed by [WriteHeader], later changes do not reach it. *)
Definition Header_Set (k v : string) (w : ResponseWriter) : ResponseWriter :=
  match Code w with
  | None => mkWriter (<[k := v]> (Header w)) (Code w) (Written w)
  | Some _ => w
  end.

Definition Header_Del (k : string) (w : ResponseWriter) : ResponseWriter :=
  match Code w with
  | None => mkWriter (delete k (Header w)) (Code w) (Written w)
  | Some _ => w
  end.

(** [w.WriteHeader(status)]: only the first call counts. *)
Definition WriteHeader (status : Z) (w : ResponseWriter) : ResponseWriter :=
  match Code w with
  | None => mkWriter (Header w) (Some status) (Written w)
  | Some _ => w
  end.

(** [w.Write(b)]: implies [WriteHeader(200)] when no status was written. *)
Definition Write (b : content) (w : ResponseWriter) : ResponseWriter :=
  let w := WriteHeader StatusOK w in
  mkWriter (Header w) (Code w) (Written w ++ [b]).

Definition newline : string := String "010" EmptyString.
Definition dquote : string := String "034" EmptyString.

(** [http.Error(w, error, code)] *)
Definition http_Error (w : ResponseWriter) (error : string) (code : Z) : ResponseWriter :=
  let w := Header_Del "Content-Length" w in
  let w := Header_Set "Content-Type" "text/plain; charset=utf-8" w in
  let w := Header_Set "X-Content-Type-Options" "nosniff" w in
  let w := WriteHeader code w in
  Write (Plain (error +:+ newline)) w.

(** The response as the client receives it. *)
Record Response : Type := mkResponse {
  StatusCode : Z;
  RespHeader : gmap string string;
  RespBody : list content
}.

Definition Result (w : ResponseWriter) : Response :=
  mkResponse (default StatusOK (Code w)) (Header w) (Written w).

(** ** Routing *)

Definition no_slash (s : string) : bool :=
  forallb (λ c, negb (Ascii.eqb c "/")) (list_ascii_of_string s).

(** [strings.CutPrefix]-like helper: the rest of [s] after [p]. *)
Fixpoint after_prefix (p s : string) : option string :=
  match p, s with
  | EmptyString, _ => Some s
  | String a p', String b s' => if Ascii.eqb a b then after_prefix p' s' else None
  | String _ _, EmptyString => None
  end.

(** [reAlbumsID.FindStringSubmatch(path)] for the pattern
    [^/albums/([^/]+)$]: nil, or the whole match and the group. *)
Definition reAlbumsID (path : string) : list string :=
  match after_prefix "/albums/" path with
  | Some rest =>
      if negb (String.eqb rest "") && no_slash rest then [path; rest] else []
  | None => []
  end.

(** [match(path, pattern, vars...)]: the variables behind [vars] are
    given by their current values and returned with the groups bound.
    (A group without a variable makes the Go code panic; the one pattern
    of the server has one group and is given one variable.) *)
Definition match_ (path : string) (pattern : string → list string) (vars : list string)
  : bool * list string :=
  let matches := pattern path in
  if bool_decide (length matches ≤ 0)%nat then (false, vars)
  else (true, foldl (λ vars im, <[im.1 := im.2]> vars) vars (imap pair (tail matches))).

(** ** The server *)

Section Server.
(** [s.db]: the database implementation behind the server; its state is
    threaded through the handlers. *)
Context (D : Database).

Definition writeJSON (w : ResponseWriter) (status : Z) (v : value) : ResponseWriter :=
  let w := Header_Set "Content-Type" "application/json; charset=utf-8" w in
  match json_MarshalIndent v with
  | inr _ =>
      http_Error w ("{" +:+ dquote +:+ "error" +:+ dquote +:+ ":" +:+ dquote
                      +:+ ErrorInternal +:+ dquote +:+ "}")
                 StatusInternalServerError
  | inl b =>
      let w := WriteHeader status w in
      Write (Indented b) w
  end.

Definition jsonError (w : ResponseWriter) (status : Z) (error : string)
    (data : option (gmap string dataval)) : ResponseWriter :=
  writeJSON w status (VResponse status error data).

(** Returns the flag, the album behind [v] and the writer. *)
Definition readJSON (w : ResponseWriter) (r : Request) (v : Album)
  : bool * Album * ResponseWriter :=
  match io_ReadAll (Body r) with
  | inr _ =>
      (false, v, jsonError w StatusInternalServerError ErrorInternal None)
  | inl b =>
      match Unmarshal b v with
      | (v, Some err) =>
          let data : gmap string dataval :=
            {[ "message"%string := DString (json_error_Error err) ]} in
          (false, v, jsonError w StatusBadRequest ErrorMalformedJSON (Some data))
      | (v, None) => (true, v, w)
      end
  end.

Definition getAlbums (w : ResponseWriter) (r : Request) (σ : db_state D)
  : ResponseWriter * db_state D :=
  let '((albums, err), σ) := db_GetAlbums D σ in
  match err with
  | Some _ => (jsonError w StatusInternalServerError ErrorDatabase None, σ)
  | None => (writeJSON w StatusOK (VAlbums albums), σ)
  end.

Definition required : dataval := DIssue (mkIssue "required" "").
Definition out_of_range : dataval :=
  DIssue (mkIssue "out-of-range" "price must be between 0 and $1000").

(** The map of validation issues that [addAlbum] builds. *)
Definition issues_of (album : Album) : gmap string dataval :=
  let issues : gmap string dataval := ∅ in
  let issues :=
    if String.eqb (ID album) "" then <["id"%string := required]> issues else issues in
  let issues :=
    if String.eqb (Title album) "" then <["title"%string := required]> issues else issues in
  let issues :=
    if String.eqb (Artist album) "" then <["artist"%string := required]> issues else issues in
  let issues :=
    if (Price album <? 0) || (Price album >=? 100000)
    then <["price"%string := out_of_range]> issues else issues in
  issues.

Definition addAlbum (w : ResponseWriter) (r : Request) (σ : db_state D)
  : ResponseWriter * db_state D :=
  let '(ok, album, w) := readJSON w r Album_zero in
  if negb ok then (w, σ) else
  let issues := issues_of album in
  if bool_decide (0 < size issues)%nat then
    (jsonError w StatusBadRequest ErrorValidation (Some issues), σ)
  else
  let '(err, σ) := db_AddAlbum D album σ in
  if errors_Is err ErrAlreadyExists then
    (jsonError w StatusConflict ErrorAlreadyExists None, σ)
  else
  match err with
  | Some _ => (jsonError w StatusInternalServerError ErrorDatabase None, σ)
  | None => (writeJSON w StatusCreated (VAlbum album), σ)
  end.

Definition getAlbumByID (w : ResponseWriter) (r : Request) (id : string)
    (σ : db_state D) : ResponseWriter * db_state D :=
  let '((album, err), σ) := db_GetAlbumByID D id σ in
  if errors_Is err ErrDoesNotExist then
    (jsonError w StatusNotFound ErrorNotFound None, σ)
  else
  match err with
  | Some _ => (jsonError w StatusInternalServerError ErrorDatabase None, σ)
  | None => (writeJSON w StatusOK (VAlbum album), σ)
  end.

Definition ServeHTTP (w : ResponseWriter) (r : Request) (σ : db_state D)
  : ResponseWriter * db_state D :=
  let path := URL_Path r in
  let id : string := "" in
  if String.eqb path "/albums" then
    if String.eqb (Method r) "GET" then getAlbums w r σ
    else if String.eqb (Method r) "POST" then addAlbum w r σ
    else
      let w := Header_Set "Allow" "GET, POST" w in
      (jsonError w StatusMethodNotAllowed ErrorMethodNotAllowed None, σ)
  else
  let '(matched, vars) := match_ path reAlbumsID [id] in
  let id := default id (head vars) in
  if matched then
    if String.eqb (Method r) "GET" then getAlbumByID w r id σ
    else
      let w := Header_Set "Allow" "GET" w in
      (jsonError w StatusMethodNotAllowed ErrorMethodNotAllowed None, σ)
  else
    (jsonError w StatusNotFound ErrorNotFound None, σ).

(** One exchange, as the tests' [serve]: a fresh recorder, the handler,
    the recorded response. *)
Definition serve (r : Request) (σ : db_state D) : Response * db_state D :=
  let '(w, σ) := ServeHTTP NewRecorder r σ in (Result w, σ).

End Server.

(** ** The server without the error envelope

    The second program of [main.go]: the same routes and the same
    database, errors written with [http.Error] as plain text, no check of
    the price, and [Price] encoded without [omitempty]. *)
Module Lean.

(** [strings.Join(elems, sep)] *)
Fixpoint strings_Join (elems : list string) (sep : string) : string :=
  match elems with
  | [] => ""
  | [e] => e
  | e :: rest => e +:+ sep +:+ strings_Join rest sep
  end.

(** [s[n:]] for [n] within the string; beyond its length the Go
    expression panics, here the result is empty. *)
Fixpoint slice_from (n : nat) (s : string) : string :=
  match n, s with
  | O, _ => s
  | S n', String _ s' => slice_from n' s'
  | S _, EmptyString => EmptyString
  end.

(** [Album] with the tag [json:"price"]: the price is always written. *)
Definition Marshal_Album (a : Album) : json :=
  JObject [("id"%string, JString (ID a));
           ("title"%string, JString (Title a));
           ("artist"%string, JString (Artist a));
           ("price"%string, JInt (Price a))].

(** What the handlers pass to [writeJSON]. *)
Inductive value : Type :=
| VAlbums (albums : slice Album)
| VAlbum (album : Album).

Definition json_MarshalIndent (v : value) : json + error :=
  match v with
  | VAlbums None => inl JNull
  | VAlbums (Some l) => inl (JArray (Marshal_Album <$> l))
  | VAlbum a => inl (Marshal_Album a)
  end.

(** [albumsIDRegexp.MatchString(path)] for [^/albums/[^/]+$]. *)
Definition albumsIDRegexp (path : string) : bool :=
  match after_prefix "/albums/" path with
  | Some rest => negb (String.eqb rest "") && no_slash rest
  | None => false
  end.

(** [http.NotFound(w, r)] *)
Definition http_NotFound (w : ResponseWriter) : ResponseWriter :=
  http_Error w "404 page not found" StatusNotFound.

Definition writeJSON (w : ResponseWriter) (v : value) : ResponseWriter :=
  match json_MarshalIndent v with
  | inr _ => http_Error w "error marshaling JSON" StatusInternalServerError
  | inl b =>
      let w := Header_Set "Content-Type" "application/json" w in
      Write (Indented b) w
  end.

Definition readJSON (w : ResponseWriter) (r : Request) (v : Album)
  : bool * Album * ResponseWriter :=
  match io_ReadAll (Body r) with
  | inr _ => (false, v, http_Error w "error reading body" StatusInternalServerError)
  | inl b =>
      match Unmarshal b v with
      | (v, Some err) =>
          (false, v,
           http_Error w ("error unmarshaling JSON: " +:+ json_error_Error err)
                      StatusBadRequest)
      | (v, None) => (true, v, w)
      end
  end.

(** The list [missing] that [addAlbum] builds. *)
Definition missing_of (album : Album) : list string :=
  let missing : list string := [] in
  let missing := if String.eqb (ID album) "" then missing ++ ["id"%string] else missing in
  let missing :=
    if String.eqb (Title album) "" then missing ++ ["title"%string] else missing in
  let missing :=
    if String.eqb (Artist album) "" then missing ++ ["artist"%string] else missing in
  missing.

Section Server.
Context (D : Database).

Definition getAlbums (w : ResponseWriter) (r : Request) (σ : db_state D)
  : ResponseWriter * db_state D :=
  let '((albums, err), σ) := db_GetAlbums D σ in
  match err with
  | Some _ => (http_Error w "error fetching albums" StatusInternalServerError, σ)
  | None => (writeJSON w (VAlbums albums), σ)
  end.

Definition addAlbum (w : ResponseWriter) (r : Request) (σ : db_state D)
  : ResponseWriter * db_state D :=
  let '(ok, album, w) := readJSON w r Album_zero in
  if negb ok then (w, σ) else
  let missing := missing_of album in
  if bool_decide (0 < length missing)%nat then
    (http_Error w ("missing fields: " +:+ strings_Join missing ", ") StatusBadRequest, σ)
  else
  let '(err, σ) := db_AddAlbum D album σ in
  if bool_decide (err = Some ErrAlreadyExists) then
    (http_Error w ("album " +:+ ID album +:+ " already exists") StatusConflict, σ)
  else
  match err with
  | Some _ => (http_Error w "error adding album" StatusInternalServerError, σ)
  | None =>
      let w := WriteHeader StatusCreated w in
      (writeJSON w (VAlbum album), σ)
  end.

Definition getAlbumByID (w : ResponseWriter) (r : Request) (id : string)
    (σ : db_state D) : ResponseWriter * db_state D :=
  let '((album, err), σ) := db_GetAlbumByID D id σ in
  if bool_decide (err = Some ErrDoesNotExist) then (http_NotFound w, σ)
  else
  match err with
  | Some _ => (http_Error w "error fetching album" StatusInternalServerError, σ)
  | None => (writeJSON w (VAlbum album), σ)
  end.

Definition ServeHTTP (w : ResponseWriter) (r : Request) (σ : db_state D)
  : ResponseWriter * db_state D :=
  let path := URL_Path r in
  if String.eqb path "/albums" then
    if String.eqb (Method r) "GET" then getAlbums w r σ
    else if String.eqb (Method r) "POST" then addAlbum w r σ
    else (http_Error w "method not allowed" StatusMethodNotAllowed, σ)
  else if albumsIDRegexp path then
    if String.eqb (Method r) "GET" then
      let id := slice_from (String.length "/albums/") path in
      getAlbumByID w r id σ
    else (http_Error w "method not allowed" StatusMethodNotAllowed, σ)
  else (http_NotFound w, σ).

(** One exchange: a fresh recorder, the handler, the recorded response. *)
Definition serve (r : Request) (σ : db_state D) : Response * db_state D :=
  let '(w, σ) := ServeHTTP NewRecorder r σ in (Result w, σ).

End Server.

End Lean.

(** ** Vocabulary of the statements *)

(** Strictly ascending IDs. *)
Definition ascending_ID (a b : Album) : Prop := String.ltb (ID a) (ID b) = true.

Definition json_utf8 : string := "application/json; charset=utf-8".

(** The error envelope without structured data, and with it. *)
Definition envelope (status : Z) (kind : string) : json :=
  JObject [("status"%string, JInt status); ("error"%string, JString kind)].

Definition envelope_with (status : Z) (kind : string) (data : json) : json :=
  JObject [("status"%string, JInt status); ("error"%string, JString kind);
           ("data"%string, data)].

(** A response with one JSON text as its body, the JSON content type and
    the further header fields [extra]. *)
Definition json_response (status : Z) (extra : gmap string string) (b : json) : Response :=
  mkResponse status (<["Content-Type"%string := json_utf8]> extra) [Indented b].

(** The seven error kinds. *)
Definition error_kinds : list string :=
  [ErrorAlreadyExists; ErrorDatabase; ErrorInternal; ErrorMalformedJSON;
   ErrorMethodNotAllowed; ErrorNotFound; ErrorValidation].

(** A request with an empty body (no bytes are not a JSON text), and the
    create request with the bytes [b] as its body. *)
Definition request (method path : string) : Request :=
  mkRequest method path (BytesReader (Malformed "unexpected end of JSON input")).

Definition POST_albums (b : bytes) : Request :=
  mkRequest "POST" "/albums" (BytesReader b).

(** The value of the field [f] of an album. *)
Definition field_of (f : field) (a : Album) : json :=
  match f with
  | FID => JString (ID a)
  | FTitle => JString (Title a)
  | FArtist => JString (Artist a)
  | FPrice => JInt (Price a)
  end.

(** The key of an object member selects the field [f]. *)
Definition names_field (f : field) (kv : string * json) : Prop :=
  lookup_field kv.1 = Some f.

(** The albums and the server of the tests. *)
Definition a1 : Album := mkAlbum "a1" "9th Symphony" "Beethoven" 795.
Definition a2 : Album := mkAlbum "a2" "Hey Jude" "The Beatles" 2000.
Definition a9 : Album := mkAlbum "a9" "Pianoman" "Billy Joel" 1234.

Definition newTestServer : gmap string Album :=
  MemoryDatabase.AddAlbums [a2; a1] MemoryDatabase.NewMemoryDatabase.

(** [errorDatabase] of the tests: every method fails. *)
Definition errorDatabase : Database :=
  {| db_state := unit;
     db_GetAlbums := λ σ, ((None, Some (errors_New "GetAlbums error")), σ);
     db_GetAlbumByID := λ id σ, ((Album_zero, Some (errors_New "GetAlbumByID error")), σ);
     db_AddAlbum := λ album σ, (Some (errors_New "AddAlbum error"), σ) |}.

(** The body of [TestAddAlbumCreated]. *)
Definition a9_body : bytes :=
  TextOf (JObject [("id"%string, JString "a9"); ("title"%string, JString "Pianoman");
                   ("artist"%string, JString "Billy Joel"); ("price"%string, JInt 1234)]).

(** The body of [TestAddAlbumAlreadyExists] and the album it denotes. *)
Definition a2_again : Album := mkAlbum "a2" "Foo" "Bar" 0.

Definition a2_again_members : list (string * json) :=
  [("id"%string, JString "a2"); ("title"%string, JString "Foo");
   ("artist"%string, JString "Bar")].

Definition a2_again_body : bytes := TextOf (JObject a2_again_members).

(** The create body of [TestDatabaseErrors] and the album it denotes. *)
Definition a9_no_price : Album := mkAlbum "a9" "Pianoman" "Billy Joel" 0.

Definition a9_no_price_members : list (string * json) :=
  [("id"%string, JString "a9"); ("title"%string, JString "Pianoman");
   ("artist"%string, JString "Billy Joel")].

Definition a9_no_price_body : bytes := TextOf (JObject a9_no_price_members).

(** The body of [TestAddAlbumBadJSON]. *)
Definition at_sign_body : bytes :=
  Malformed "invalid character '@' looking for beginning of value".

(** ** Further vocabulary *)

(** The exchanges of a run of the server, one request after the other:
    the responses and the state of the database at the end. *)
Definition run (D : Database) (rs : list Request) (σ : db_state D)
  : list Response * db_state D :=
  foldl (λ acc r, let '(resp, σ') := serve D r acc.2 in (acc.1 ++ [resp], σ')) ([], σ) rs.

(** Every entry is stored under its ID and passes the checks of
    [addAlbum]. *)
Definition all_valid (d : gmap string Album) : Prop :=
  ∀ k a, d !! k = Some a → ID a = k ∧ issues_of a = ∅.

(** The request, with another body. *)
Definition with_body (r : Request) (body : Reader) : Request :=
  mkRequest (Method r) (URL_Path r) body.

(** [n] layers of wrapping around an error. *)
Fixpoint wrapped (msgs : list string) (e : error) : error :=
  match msgs with
  | [] => e
  | msg :: msgs => Wrap msg (wrapped msgs e)
  end.

(** The value [v] does not fit the type of the field [f]. *)
Definition mismatch (f : field) (v : json) : bool :=
  match f, v with
  | _, JNull => false
  | FPrice, JInt z => negb (in_int64 z)
  | FPrice, _ => true
  | _, JString _ => false
  | _, _ => true
  end.

(** A plain-text response of [http.Error]. *)
Definition text_response (status : Z) (msg : string) : Response :=
  mkResponse status
    (<["X-Content-Type-Options"%string := "nosniff"%string]>
       (<["Content-Type"%string := "text/plain; charset=utf-8"%string]> ∅))
    [Plain (msg +:+ newline)].

(** A create request whose album the price check of [addAlbum] rejects
    while ID, title and artist are there. *)
Definition only_price_rejected (r : Request) : Prop :=
  URL_Path r = "/albums" ∧ Method r = "POST" ∧
  ∃ b album, Body r = BytesReader b ∧ Unmarshal b Album_zero = (album, None) ∧
             Lean.missing_of album = [] ∧ ¬ (0 ≤ Price album < 100000).

(** A database that wraps its sentinel errors, as a backend that adds
    context with [fmt.Errorf] and [%w] does. *)
Definition wrappingDatabase : Database :=
  {| db_state := unit;
     db_GetAlbums := λ σ, ((Some [], None), σ);
     db_GetAlbumByID := λ id σ, ((Album_zero, Some (Wrap "lookup" ErrDoesNotExist)), σ);
     db_AddAlbum := λ album σ, (Some (Wrap "insert" ErrAlreadyExists), σ) |}.

(** A member that the decoder passes over: its key names no field, or
    its value is [null]. *)
Definition ignored (kv : string * json) : bool :=
  match lookup_field kv.1, kv.2 with
  | None, _ => true
  | Some _, JNull => true
  | Some _, _ => false
  end.


(** * Properties *)

(** ** The order on strings *)

Section StringOrder.

Lemma ascii_compare_Lt_trans a b c :
  Ascii.compare a b = Lt → Ascii.compare b c = Lt → Ascii.compare a c = Lt.
Proof.
  unfold Ascii.compare. rewrite !N.compare_lt_iff. lia.
Qed.

Lemma string_compare_refl s : String.compare s s = Eq.
Proof.
  induction s as [|a s IH]; simpl; [done|].
  assert (Ascii.compare a a = Eq) as ->; [|done].
  unfold Ascii.compare. apply N.compare_refl.
Qed.

Lemma string_compare_Lt_trans s1 : ∀ s2 s3,
  String.compare s1 s2 = Lt → String.compare s2 s3 = Lt → String.compare s1 s3 = Lt.
Proof.
  induction s1 as [|a s1 IH]; intros [|b s2] [|c s3]; simpl; try done.
  destruct (Ascii.compare a b) eqn:Hab; try done;
    destruct (Ascii.compare b c) eqn:Hbc; try done; intros H12 H23.
  - apply Ascii.compare_eq_iff in Hab, Hbc. subst.
    assert (Ascii.compare c c = Eq) as -> by (unfold Ascii.compare; apply N.compare_refl).
    eauto.
  - apply Ascii.compare_eq_iff in Hab. subst. by rewrite Hbc.
  - apply Ascii.compare_eq_iff in Hbc. subst. by rewrite Hab.
  - by rewrite (ascii_compare_Lt_trans _ _ _ Hab Hbc).
Qed.

Lemma ltb_irrefl s : String.ltb s s = false.
Proof. unfold String.ltb. by rewrite string_compare_refl. Qed.

Lemma ltb_trans s1 s2 s3 :
  String.ltb s1 s2 = true → String.ltb s2 s3 = true → String.ltb s1 s3 = true.
Proof.
  unfold String.ltb. intros H12 H23.
  destruct (String.compare s1 s2) eqn:E12; try done.
  destruct (String.compare s2 s3) eqn:E23; try done.
  by rewrite (string_compare_Lt_trans _ _ _ E12 E23).
Qed.

Lemma ltb_connected s1 s2 :
  String.ltb s1 s2 = false → s1 ≠ s2 → String.ltb s2 s1 = true.
Proof.
  unfold String.ltb. rewrite (String.compare_antisym s1 s2).
  destruct (String.compare s2 s1) eqn:E; simpl; try done.
  apply String.compare_eq_iff in E. congruence.
Qed.

Lemma ltb_asym s1 s2 : String.ltb s1 s2 = true → String.ltb s2 s1 = false.
Proof.
  intros H. destruct (String.ltb s2 s1) eqn:E; [|done].
  by rewrite <-(ltb_irrefl s1), (ltb_trans _ _ _ H E).
Qed.

End StringOrder.

(** ** [sort.Slice] *)

Section SortFacts.
Context {A : Type} (key : A → string).

Let less (x y : A) : bool := String.ltb (key x) (key y).
Let ascending (x y : A) : Prop := String.ltb (key x) (key y) = true.

Lemma sort_place_perm x l : sort_place less x l ≡ₚ x :: l.
Proof.
  induction l as [|y l IH]; simpl; [done|].
  destruct (less x y); [done|]. rewrite IH. apply perm_swap.
Qed.

Lemma sort_Slice_perm l : sort_Slice less l ≡ₚ l.
Proof.
  induction l as [|x l IH]; simpl; [done|].
  by rewrite sort_place_perm, IH.
Qed.

Lemma sort_place_sorted x l :
  Forall (λ y, key y ≠ key x) l →
  StronglySorted ascending l → StronglySorted ascending (sort_place less x l).
Proof.
  induction l as [|y l IH]; simpl; intros Hne Hs.
  { repeat constructor. }
  inversion Hne as [|? ? Hy Hl]; subst.
  apply StronglySorted_cons in Hs as [Hyl Hs].
  destruct (less x y) eqn:Hxy.
  - apply StronglySorted_cons. split.
    + constructor; [done|].
      eapply Forall_impl; [exact Hyl|]. intros z Hz. by eapply ltb_trans.
    + by apply StronglySorted_cons.
  - apply StronglySorted_cons. split; [|by apply IH].
    rewrite sort_place_perm. constructor; [|done].
    apply ltb_connected; done.
Qed.

Lemma sort_Slice_sorted l :
  NoDup (key <$> l) → StronglySorted ascending (sort_Slice less l).
Proof.
  induction l as [|x l IH]; simpl; intros Hnd.
  { constructor. }
  apply NoDup_cons in Hnd as [Hx Hnd].
  apply sort_place_sorted; [|by apply IH].
  rewrite sort_Slice_perm. apply Forall_forall. intros y Hy E.
  apply Hx. rewrite <-E. by apply list_elem_of_fmap_2.
Qed.

(** Whatever [sort.Slice] does internally, with pairwise distinct keys
    there is one ascending arrangement only. *)
Lemma sort_Slice_unique l out :
  NoDup (key <$> l) → out ≡ₚ l → StronglySorted ascending out →
  out = sort_Slice less l.
Proof.
  intros Hnd Hp Hs.
  apply (StronglySorted_unique_strong ascending); [|done|by apply sort_Slice_sorted|].
  - intros x1 x2 _ _ H12 H21. unfold ascending in *.
    by rewrite (ltb_asym _ _ H12) in H21.
  - by rewrite sort_Slice_perm.
Qed.

Lemma sort_Slice_order_irrelevant l1 l2 :
  NoDup (key <$> l1) → l1 ≡ₚ l2 → sort_Slice less l1 = sort_Slice less l2.
Proof.
  intros Hnd Hp. apply sort_Slice_unique.
  - by rewrite <-Hp.
  - by rewrite sort_Slice_perm.
  - by apply sort_Slice_sorted.
Qed.

End SortFacts.

(** ** The in-memory database *)

Section MemoryDatabaseFacts.
Import MemoryDatabase.

Lemma keyed_by_ID_New : keyed_by_ID NewMemoryDatabase.
Proof. intros k a. unfold NewMemoryDatabase. by rewrite lookup_empty. Qed.

Lemma keyed_by_ID_AddAlbum album (d : gmap string Album) :
  keyed_by_ID d → keyed_by_ID (AddAlbum album d).2.
Proof.
  intros Hd. unfold AddAlbum. destruct (d !! ID album) eqn:E; simpl; [done|].
  intros k a. rewrite lookup_insert. case_decide; [naive_solver|eauto].
Qed.

Lemma keyed_by_ID_AddAlbums l : ∀ d : gmap string Album,
  keyed_by_ID d → keyed_by_ID (AddAlbums l d).
Proof.
  induction l as [|a l IH]; intros d Hd; simpl; [done|].
  apply IH. by apply keyed_by_ID_AddAlbum.
Qed.

(** The [range] loop of [GetAlbums] collects the values in the order of
    the visit. *)
Lemma range_append (visit : list (string * Album)) (acc : list Album) :
  foldl (λ albums kv, albums ++ [kv.2]) acc visit = acc ++ visit.*2.
Proof.
  revert acc. induction visit as [|kv visit IH]; intros acc; simpl.
  - by rewrite app_nil_r.
  - by rewrite IH, <-app_assoc.
Qed.

Lemma GetAlbums_visiting_eq visit :
  GetAlbums_visiting visit = sort_Slice less visit.*2.
Proof. unfold GetAlbums_visiting. by rewrite range_append. Qed.

Lemma values_ID (d : gmap string Album) :
  keyed_by_ID d → ID <$> (map_to_list d).*2 = (map_to_list d).*1.
Proof.
  intros Hd. rewrite <-list_fmap_compose. apply Forall_fmap_ext_1, Forall_forall.
  intros [k a] Hin%elem_of_map_to_list. simpl. by apply Hd.
Qed.

Lemma values_NoDup_ID (d : gmap string Album) :
  keyed_by_ID d → NoDup (ID <$> (map_to_list d).*2).
Proof. intros Hd. rewrite values_ID by done. apply NoDup_fst_map_to_list. Qed.

Lemma elem_of_values (d : gmap string Album) a :
  keyed_by_ID d → a ∈ (map_to_list d).*2 ↔ d !! ID a = Some a.
Proof.
  intros Hd. rewrite list_elem_of_fmap. split.
  - intros ([k a'] & -> & Hin%elem_of_map_to_list). simpl.
    by rewrite (Hd _ _ Hin).
  - intros Hin. exists (ID a, a). split; [done|]. by apply elem_of_map_to_list.
Qed.

(** A run of [AddAlbum] calls adds the albums whose ID is free; of two
    albums with one ID the earlier is kept. *)
Lemma AddAlbums_union l : ∀ d : gmap string Album,
  AddAlbums l d = d ∪ list_to_map ((λ a, (ID a, a)) <$> l).
Proof.
  induction l as [|a l IH]; intros d.
  { simpl. by rewrite (right_id_L ∅ (∪)). }
  change (AddAlbums (a :: l) d) with (AddAlbums l (AddAlbum a d).2).
  rewrite IH. unfold AddAlbum. rewrite fmap_cons. simpl list_to_map.
  apply map_eq. intros k.
  destruct (d !! ID a) as [old|] eqn:E; simpl;
    rewrite !lookup_union, ?lookup_insert; case_decide; subst;
    rewrite ?E; try done.
  - by destruct (list_to_map _ !! ID a).
  - by destruct (list_to_map _ !! ID a).
Qed.

Lemma AddAlbums_order_irrelevant l1 l2 (d : gmap string Album) :
  NoDup (ID <$> l1) → l1 ≡ₚ l2 → AddAlbums l1 d = AddAlbums l2 d.
Proof.
  intros Hnd Hp. rewrite !AddAlbums_union. f_equal.
  apply list_to_map_proper.
  - by rewrite <-list_fmap_compose.
  - by rewrite Hp.
Qed.

Lemma AddAlbums_lookup_fresh l (d : gmap string Album) a :
  NoDup (ID <$> l) → a ∈ l → d !! ID a = None → AddAlbums l d !! ID a = Some a.
Proof.
  intros Hnd Hin Hfree. rewrite AddAlbums_union, lookup_union, Hfree, (left_id_L None _).
  apply elem_of_list_to_map_1.
  - by rewrite <-list_fmap_compose.
  - apply list_elem_of_fmap. by exists a.
Qed.

Lemma AddAlbums_lookup_old l (d : gmap string Album) k old :
  d !! k = Some old → AddAlbums l d !! k = Some old.
Proof.
  intros Hold. rewrite AddAlbums_union, lookup_union, Hold.
  by destruct (list_to_map _ !! k).
Qed.

End MemoryDatabaseFacts.

(** ** Writing responses *)

Section WriterFacts.

Lemma json_MarshalIndent_total v : ∃ b, json_MarshalIndent v = inl b.
Proof. destruct v as [[l|]|a|s k d]; simpl; eauto. Qed.

(** On a writer whose status line is not yet written, [writeJSON] sets
    the content type, the status and the body. *)
Lemma writeJSON_fresh h status v b :
  json_MarshalIndent v = inl b →
  writeJSON (mkWriter h None []) status v
  = mkWriter (<["Content-Type"%string := json_utf8]> h) (Some status) [Indented b].
Proof. intros Hb. unfold writeJSON. by rewrite Hb. Qed.

Lemma jsonError_fresh h status kind data :
  jsonError (mkWriter h None []) status kind data
  = mkWriter (<["Content-Type"%string := json_utf8]> h) (Some status)
      [Indented (JObject ([("status"%string, JInt status); ("error"%string, JString kind)]
                          ++ omitempty_map "data" data))].
Proof. done. Qed.

Lemma jsonError_nil h status kind :
  jsonError (mkWriter h None []) status kind None
  = mkWriter (<["Content-Type"%string := json_utf8]> h) (Some status)
      [Indented (envelope status kind)].
Proof. done. Qed.

Lemma omitempty_map_nonempty name (m : gmap string dataval) :
  m ≠ ∅ → omitempty_map name (Some m) = [(name, Marshal_map m)].
Proof.
  intros Hm. unfold omitempty_map. rewrite bool_decide_eq_false_2; [done|].
  by rewrite map_size_empty_iff.
Qed.

Lemma jsonError_data h status kind (m : gmap string dataval) :
  m ≠ ∅ →
  jsonError (mkWriter h None []) status kind (Some m)
  = mkWriter (<["Content-Type"%string := json_utf8]> h) (Some status)
      [Indented (envelope_with status kind (Marshal_map m))].
Proof. intros Hm. rewrite jsonError_fresh. by rewrite omitempty_map_nonempty. Qed.

End WriterFacts.

(** ** Routing *)

Section RoutingFacts.

Lemma after_prefix_Some p : ∀ s rest,
  after_prefix p s = Some rest ↔ s = p +:+ rest.
Proof.
  induction p as [|a p IH]; intros s rest; simpl.
  { change (EmptyString +:+ rest) with rest. split; congruence. }
  destruct s as [|b s]; [done|].
  change (String a p +:+ rest) with (String a (p +:+ rest)).
  destruct (Ascii.eqb_spec a b) as [->|Hne].
  - rewrite IH. split; congruence.
  - split; congruence.
Qed.

(** The pattern matches exactly the paths [/albums/] followed by a
    non-empty segment without a slash, and captures the segment. *)
Lemma reAlbumsID_match id :
  id ≠ "" → no_slash id = true → reAlbumsID ("/albums/" +:+ id) = ["/albums/" +:+ id; id].
Proof.
  intros Hne Hns. unfold reAlbumsID.
  assert (after_prefix "/albums/" ("/albums/" +:+ id) = Some id) as ->
    by by apply after_prefix_Some.
  rewrite Hns. by destruct (String.eqb_spec id "").
Qed.

Lemma reAlbumsID_no_match path :
  (∀ id, path = "/albums/" +:+ id → id = "" ∨ no_slash id = false) →
  reAlbumsID path = [].
Proof.
  intros H. unfold reAlbumsID.
  destruct (after_prefix "/albums/" path) as [rest|] eqn:E; [|done].
  apply after_prefix_Some in E. destruct (H _ E) as [->| ->]; [done|].
  by rewrite andb_false_r.
Qed.

Lemma match_item id :
  id ≠ "" → no_slash id = true →
  match_ ("/albums/" +:+ id) reAlbumsID [""] = (true, [id]).
Proof. intros ??. unfold match_. by rewrite reAlbumsID_match. Qed.

Lemma match_none path :
  (∀ id, path = "/albums/" +:+ id → id = "" ∨ no_slash id = false) →
  match_ path reAlbumsID [""] = (false, [""]).
Proof. intros H. unfold match_. by rewrite reAlbumsID_no_match. Qed.

Lemma item_not_collection id : String.eqb ("/albums/" +:+ id) "/albums" = false.
Proof. done. Qed.

(** What [match] leaves in [id]: empty, or a segment without a slash. *)
Lemma match_binds path matched vars :
  match_ path reAlbumsID [""] = (matched, vars) →
  if matched
  then ∃ id, vars = [id] ∧ path = "/albums/" +:+ id ∧ id ≠ "" ∧ no_slash id = true
  else vars = [""].
Proof.
  unfold match_, reAlbumsID.
  destruct (after_prefix "/albums/" path) as [rest|] eqn:E; simpl;
    [|intros [= <- <-]; done].
  apply after_prefix_Some in E.
  destruct (String.eqb_spec rest ""); simpl; [intros [= <- <-]; done|].
  destruct (no_slash rest) eqn:Hns; simpl; intros [= <- <-]; [|done].
  by exists rest.
Qed.

End RoutingFacts.

(** ** The handlers *)

Section ServerFacts.
Context (D : Database).

Lemma issues_of_lookup album :
  issues_of album !! "id"%string = (if String.eqb (ID album) "" then Some required else None)
  ∧ issues_of album !! "title"%string
    = (if String.eqb (Title album) "" then Some required else None)
  ∧ issues_of album !! "artist"%string
    = (if String.eqb (Artist album) "" then Some required else None)
  ∧ issues_of album !! "price"%string
    = (if (Price album <? 0) || (Price album >=? 100000) then Some out_of_range else None)
  ∧ ∀ k, k ≠ "id"%string → k ≠ "title"%string → k ≠ "artist"%string →
         k ≠ "price"%string → issues_of album !! k = None.
Proof.
  unfold issues_of.
  destruct (String.eqb (ID album) ""), (String.eqb (Title album) ""),
    (String.eqb (Artist album) ""), ((Price album <? 0) || (Price album >=? 100000));
    repeat split; try done;
    intros k ????; by rewrite ?lookup_insert_ne, ?lookup_empty.
Qed.

Lemma issues_of_empty album :
  issues_of album = ∅ ↔
  ID album ≠ "" ∧ Title album ≠ "" ∧ Artist album ≠ "" ∧ 0 ≤ Price album < 100000.
Proof.
  destruct (issues_of_lookup album) as (Hi & Ht & Ha & Hp & Hk). split.
  - intros E. rewrite E, !lookup_empty in *.
    destruct (String.eqb_spec (ID album) ""); [done|].
    destruct (String.eqb_spec (Title album) ""); [done|].
    destruct (String.eqb_spec (Artist album) ""); [done|].
    destruct (Price album <? 0) eqn:E1; [done|].
    destruct (Price album >=? 100000) eqn:E2; [done|].
    repeat split; try done; lia.
  - intros (Hid & Htitle & Hartist & Hprice). unfold issues_of.
    apply String.eqb_neq in Hid, Htitle, Hartist. rewrite Hid, Htitle, Hartist.
    replace (Price album <? 0) with false by lia.
    replace (Price album >=? 100000) with false by lia. done.
Qed.

(** The three ways [readJSON] ends. *)
Lemma readJSON_read_error w r v e :
  Body r = ErrReader e →
  readJSON w r v = (false, v, jsonError w StatusInternalServerError ErrorInternal None).
Proof. intros Hr. unfold readJSON. by rewrite Hr. Qed.

Lemma readJSON_unmarshal_error w r v b v' err :
  Body r = BytesReader b → Unmarshal b v = (v', Some err) →
  readJSON w r v
  = (false, v', jsonError w StatusBadRequest ErrorMalformedJSON
                  (Some {[ "message"%string := DString (json_error_Error err) ]})).
Proof. intros Hr Hu. unfold readJSON. by rewrite Hr; simpl; rewrite Hu. Qed.

Lemma readJSON_ok w r v b v' :
  Body r = BytesReader b → Unmarshal b v = (v', None) →
  readJSON w r v = (true, v', w).
Proof. intros Hr Hu. unfold readJSON. by rewrite Hr; simpl; rewrite Hu. Qed.

(** [addAlbum] once the body is decoded: validation, then the store. *)
Lemma addAlbum_decoded w r σ b album :
  Body r = BytesReader b → Unmarshal b Album_zero = (album, None) →
  addAlbum D w r σ =
    if bool_decide (issues_of album = ∅) then
      let '(err, σ') := db_AddAlbum D album σ in
      if errors_Is err ErrAlreadyExists then
        (jsonError w StatusConflict ErrorAlreadyExists None, σ')
      else if bool_decide (err = None) then (writeJSON w StatusCreated (VAlbum album), σ')
      else (jsonError w StatusInternalServerError ErrorDatabase None, σ')
    else (jsonError w StatusBadRequest ErrorValidation (Some (issues_of album)), σ).
Proof.
  intros Hr Hu. unfold addAlbum. rewrite (readJSON_ok _ _ _ _ _ Hr Hu). simpl.
  destruct (decide (issues_of album = ∅)) as [E|E].
  - rewrite (bool_decide_eq_true_2 _ E), E.
    rewrite bool_decide_eq_false_2 by (rewrite map_size_empty; lia).
    destruct (db_AddAlbum D album σ) as [[e|] σ']; simpl; [|done].
    by destruct (errors_Is_chain e ErrAlreadyExists).
  - rewrite (bool_decide_eq_false_2 _ E).
    rewrite bool_decide_eq_true_2; [done|].
    apply map_size_non_empty_iff in E. lia.
Qed.

(** Every exchange ends in one [writeJSON] on a writer without status
    line: an album list or an album with a success status, or the
    envelope of [jsonError] carrying the status of the response. *)
Lemma ServeHTTP_outcome r σ :
  ∃ status v extra,
    (ServeHTTP D NewRecorder r σ).1 = writeJSON (mkWriter extra None []) status v ∧
    match v with
    | VAlbums _ => status = StatusOK
    | VAlbum _ => status = StatusOK ∨ status = StatusCreated
    | VResponse s kind _ => s = status ∧ kind ∈ error_kinds ∧ 400 ≤ status
    end.
Proof.
  assert (∀ k, In k error_kinds → k ∈ error_kinds) as Hin
    by (intros k; apply list_elem_of_In).
  unfold ServeHTTP, getAlbums, addAlbum, getAlbumByID, readJSON, jsonError.
  repeat case_match; simplify_eq/=;
    eexists _, _, _; (split; [reflexivity|]); simpl;
    try (split; [done|split; [apply Hin; simpl; tauto|done]]);
    try done; try (by left); try (by right).
Qed.

End ServerFacts.

(** ** Decoding *)

Section DecodeFacts.

Lemma set_field_other f g v a a' :
  set_field f v a = inl a' → f ≠ g → field_of g a' = field_of g a.
Proof.
  destruct f, g, v; simpl; try done; try (by intros [= <-]);
    destruct (in_int64 z); try done; by intros [= <-].
Qed.

Lemma decode_member_other g st kv :
  ¬ names_field g kv → field_of g (decode_member st kv).1 = field_of g st.1.
Proof.
  unfold names_field, decode_member. intros Hg.
  destruct (lookup_field kv.1) as [f|]; [|done].
  destruct (set_field f kv.2 st.1) as [a|e] eqn:E; [|done].
  simpl. eapply set_field_other; [done|]. congruence.
Qed.

Lemma decode_members_other g members : ∀ st,
  Forall (λ kv, ¬ names_field g kv) members →
  field_of g (foldl decode_member st members).1 = field_of g st.1.
Proof.
  induction members as [|kv members IH]; intros st Hall; simpl; [done|].
  inversion Hall; subst. rewrite IH by done. by apply decode_member_other.
Qed.

(** A field that no member of the object names keeps the value it had
    before the call: the zero value in [addAlbum]. *)
Lemma json_Unmarshal_absent g members a :
  Forall (λ kv, ¬ names_field g kv) members →
  field_of g (json_Unmarshal (JObject members) a).1 = field_of g a.
Proof. apply decode_members_other. Qed.

(** What [Marshal_Album] writes, [json_Unmarshal] reads back. *)
Lemma Marshal_Album_roundtrip a :
  in_int64 (Price a) = true →
  json_Unmarshal (Marshal_Album a) Album_zero = (a, None).
Proof.
  intros Hp. destruct a as [i t r p]. simpl in *.
  unfold Marshal_Album, omitempty_int. simpl.
  destruct (Z.eqb_spec p 0) as [->|Hne]; simpl; [done|].
  unfold decode_member at 1. simpl. by rewrite Hp.
Qed.

End DecodeFacts.

(** ** Exchanges *)

Section ServeFacts.
Context (D : Database).

Lemma serve_GET_albums body σ :
  serve D (mkRequest "GET" "/albums" body) σ =
    let '((albums, err), σ') := db_GetAlbums D σ in
    match err, albums with
    | Some _, _ =>
        (json_response StatusInternalServerError ∅
           (envelope StatusInternalServerError ErrorDatabase), σ')
    | None, Some l => (json_response StatusOK ∅ (JArray (Marshal_Album <$> l)), σ')
    | None, None => (json_response StatusOK ∅ JNull, σ')
    end.
Proof.
  unfold serve, ServeHTTP, getAlbums. simpl.
  destruct (db_GetAlbums D σ) as [[[l|] [e|]] σ']; done.
Qed.

Lemma serve_GET_item id body σ :
  id ≠ "" → no_slash id = true →
  serve D (mkRequest "GET" ("/albums/" +:+ id) body) σ =
    let '((album, err), σ') := db_GetAlbumByID D id σ in
    if errors_Is err ErrDoesNotExist then
      (json_response StatusNotFound ∅ (envelope StatusNotFound ErrorNotFound), σ')
    else if bool_decide (err = None) then
      (json_response StatusOK ∅ (Marshal_Album album), σ')
    else
      (json_response StatusInternalServerError ∅
         (envelope StatusInternalServerError ErrorDatabase), σ').
Proof.
  intros Hne Hns. unfold serve, ServeHTTP. cbn [URL_Path Method].
  rewrite item_not_collection, (match_item _ Hne Hns). simpl.
  unfold getAlbumByID.
  destruct (db_GetAlbumByID D id σ) as [[album [e|]] σ']; simpl; [|done].
  by destruct (errors_Is_chain e ErrDoesNotExist).
Qed.

Lemma serve_POST_read_error e σ :
  serve D (mkRequest "POST" "/albums" (ErrReader e)) σ =
    (json_response StatusInternalServerError ∅
       (envelope StatusInternalServerError ErrorInternal), σ).
Proof. done. Qed.

Lemma serve_POST_unmarshal_error b album err σ :
  Unmarshal b Album_zero = (album, Some err) →
  serve D (POST_albums b) σ =
    (json_response StatusBadRequest ∅
       (envelope_with StatusBadRequest ErrorMalformedJSON
          (JObject [("message"%string, JString (json_error_Error err))])), σ).
Proof.
  intros Hu. unfold serve, ServeHTTP, POST_albums, addAlbum. simpl.
  erewrite readJSON_unmarshal_error; [|done..]. simpl. unfold NewRecorder.
  rewrite jsonError_data by apply insert_non_empty.
  unfold Marshal_map. by rewrite map_fmap_singleton, map_to_list_singleton.
Qed.

Lemma serve_POST_decoded b album σ :
  Unmarshal b Album_zero = (album, None) →
  serve D (POST_albums b) σ =
    if bool_decide (issues_of album = ∅) then
      let '(err, σ') := db_AddAlbum D album σ in
      if errors_Is err ErrAlreadyExists then
        (json_response StatusConflict ∅ (envelope StatusConflict ErrorAlreadyExists), σ')
      else if bool_decide (err = None) then
        (json_response StatusCreated ∅ (Marshal_Album album), σ')
      else
        (json_response StatusInternalServerError ∅
           (envelope StatusInternalServerError ErrorDatabase), σ')
    else
      (json_response StatusBadRequest ∅
         (envelope_with StatusBadRequest ErrorValidation (Marshal_map (issues_of album))),
       σ).
Proof.
  intros Hu. unfold serve, ServeHTTP, POST_albums. simpl.
  erewrite addAlbum_decoded; [|done..].
  case_bool_decide as Hi.
  - destruct (db_AddAlbum D album σ) as [[e|] σ']; simpl; [|done].
    by destruct (errors_Is_chain e ErrAlreadyExists).
  - unfold NewRecorder. by rewrite jsonError_data.
Qed.

Lemma serve_method_not_allowed_collection method body σ :
  method ≠ "GET" → method ≠ "POST" →
  serve D (mkRequest method "/albums" body) σ =
    (json_response StatusMethodNotAllowed {[ "Allow"%string := "GET, POST"%string ]}
       (envelope StatusMethodNotAllowed ErrorMethodNotAllowed), σ).
Proof.
  intros Hg%String.eqb_neq Hp%String.eqb_neq.
  unfold serve, ServeHTTP. simpl. by rewrite Hg, Hp.
Qed.

Lemma serve_method_not_allowed_item method id body σ :
  id ≠ "" → no_slash id = true → method ≠ "GET" →
  serve D (mkRequest method ("/albums/" +:+ id) body) σ =
    (json_response StatusMethodNotAllowed {[ "Allow"%string := "GET"%string ]}
       (envelope StatusMethodNotAllowed ErrorMethodNotAllowed), σ).
Proof.
  intros Hne Hns Hg%String.eqb_neq.
  unfold serve, ServeHTTP. cbn [URL_Path Method].
  rewrite item_not_collection, (match_item _ Hne Hns). simpl. by rewrite Hg.
Qed.

Lemma serve_not_found method path body σ :
  path ≠ "/albums" →
  (∀ id, path = "/albums/" +:+ id → id = "" ∨ no_slash id = false) →
  serve D (mkRequest method path body) σ =
    (json_response StatusNotFound ∅ (envelope StatusNotFound ErrorNotFound), σ).
Proof.
  intros Hc%String.eqb_neq Hi.
  unfold serve, ServeHTTP. cbn [URL_Path Method].
  by rewrite Hc, (match_none _ Hi).
Qed.

End ServeFacts.

(** ** The shape of every response *)

Section ResponseShape.
Context (D : Database).

Lemma serve_outcome r σ :
  ∃ status v extra b,
    json_MarshalIndent v = inl b ∧
    (serve D r σ).1 = json_response status extra b ∧
    match v with
    | VAlbums _ => status = StatusOK
    | VAlbum _ => status = StatusOK ∨ status = StatusCreated
    | VResponse s kind _ => s = status ∧ kind ∈ error_kinds ∧ 400 ≤ status
    end.
Proof.
  destruct (ServeHTTP_outcome D r σ) as (status & v & extra & Hw & Hv).
  destruct (json_MarshalIndent_total v) as [b Hb].
  exists status, v, extra, b. split; [done|]. split; [|done].
  unfold serve. destruct (ServeHTTP D NewRecorder r σ) as [w σ']. simpl in *.
  by rewrite Hw, (writeJSON_fresh _ _ _ _ Hb).
Qed.

(** The members of an encoded envelope: [status], [error], and [data]
    only for a map that is not empty. *)
Lemma envelope_members s kind data b :
  json_MarshalIndent (VResponse s kind data) = inl b →
  b = envelope s kind
  ∨ ∃ m : gmap string dataval,
      m ≠ ∅ ∧ data = Some m ∧ b = envelope_with s kind (Marshal_map m).
Proof.
  simpl. intros [= <-]. destruct data as [m|]; simpl; [|by left].
  case_bool_decide as Hm.
  - by left.
  - right. exists m. split; [|done]. by rewrite <-map_size_non_empty_iff.
Qed.

(** A map that is not empty is encoded as an object with members. *)
Lemma Marshal_map_members (m : gmap string dataval) :
  m ≠ ∅ → ∃ kv members, Marshal_map m = JObject (kv :: members).
Proof.
  intros Hm. unfold Marshal_map.
  pose proof (sort_Slice_perm fst (map_to_list (Marshal_dataval <$> m))) as Hp.
  simpl in Hp. fold key_less in Hp.
  destruct (sort_Slice key_less (map_to_list (Marshal_dataval <$> m))) as [|kv l]; [|eauto].
  apply Permutation_nil_l in Hp. symmetry in Hp.
  by apply map_to_list_empty_iff, fmap_empty_iff in Hp.
Qed.

(** An album is never encoded with a first member [status]. *)
Lemma album_body_not_envelope v b s members :
  json_MarshalIndent v = inl b → b = JObject (("status"%string, JInt s) :: members) →
  ∃ kind data, v = VResponse s kind data.
Proof.
  destruct v as [[l|]|a|s' kind data]; simpl; intros [= <-]; try done.
  intros [= <- _]. eauto.
Qed.

End ResponseShape.

(** * The properties of the specification *)

Import MemoryDatabase.

(** C1: [AddAlbum] of an album whose ID is already in the store fails with
    [ErrAlreadyExists] (Conflict) and returns the very same store, so the
    album stored under that ID is the one that was there; [AddAlbum] of an
    album whose ID is absent succeeds, stores exactly that album under its
    ID, leaves every other entry as it was (the store grows by one), and
    a second [AddAlbum] with the same ID then fails and keeps the first. *)
Theorem AddAlbum_conflict_or_insert (d : gmap string Album) (album : Album) :
  match d !! ID album with
  | Some old =>
      AddAlbum album d = (Some ErrAlreadyExists, d) ∧
      errors_Is (AddAlbum album d).1 ErrAlreadyExists = true ∧
      (AddAlbum album d).2 !! ID album = Some old
  | None =>
      let d' := (AddAlbum album d).2 in
      (AddAlbum album d).1 = None ∧
      d' !! ID album = Some album ∧
      (∀ k, k ≠ ID album → d' !! k = d !! k) ∧
      size d' = S (size d) ∧
      (∀ second, ID second = ID album →
                 AddAlbum second d' = (Some ErrAlreadyExists, d') ∧
                 (AddAlbum second d').2 !! ID album = Some album)
  end.
Proof.
  unfold AddAlbum. destruct (d !! ID album) as [old|] eqn:E; simpl.
  - by rewrite E.
  - split; [done|]. split; [apply lookup_insert_eq|].
    split; [intros k Hk; by apply lookup_insert_ne|].
    split; [by apply map_size_insert_None|].
    intros second ->. rewrite lookup_insert_eq. simpl.
    split; [done|apply lookup_insert_eq].
Qed.

Lemma AddAlbum_conflict_or_insert_witness :
  AddAlbum (mkAlbum "a2" "Foo" "Bar" 0) newTestServer = (Some ErrAlreadyExists, newTestServer)
  ∧ (AddAlbum (mkAlbum "a2" "Foo" "Bar" 0) newTestServer).2 !! "a2"%string = Some a2
  ∧ (AddAlbum a9 newTestServer).1 = None
  ∧ (AddAlbum a9 newTestServer).2 !! "a9"%string = Some a9
  ∧ size (AddAlbum a9 newTestServer).2 = 3%nat.
Proof.
  pose proof (AddAlbum_conflict_or_insert newTestServer (mkAlbum "a2" "Foo" "Bar" 0)) as H2.
  pose proof (AddAlbum_conflict_or_insert newTestServer a9) as H9.
  change (newTestServer !! ID (mkAlbum "a2" "Foo" "Bar" 0)) with (Some a2) in H2.
  change (newTestServer !! ID a9) with (@None Album) in H9.
  destruct H2 as (Hc & _ & Hold). destruct H9 as (Hn & Hs & _ & Hsz & _).
  exact (conj Hc (conj Hold (conj Hn (conj Hs Hsz)))).
Defined.

(** C7: [GetAlbumByID] of an ID that is absent from the store fails with
    [ErrDoesNotExist] (NotFound): its error is nil exactly when the ID is
    stored, so the zero album it returns beside the error is never a
    success; for an ID that is present it returns the stored album.  The
    handler turns the first into 404 with the [not-found] envelope (no
    album in the body) and the second into 200 with the album. *)
Theorem GetAlbumByID_found_or_NotFound (d : gmap string Album) (id : string) :
  match d !! id with
  | None => GetAlbumByID id d = (Album_zero, Some ErrDoesNotExist)
  | Some album => GetAlbumByID id d = (album, None)
  end
  ∧ ((GetAlbumByID id d).2 = None ↔ is_Some (d !! id))
  ∧ (id ≠ "" → no_slash id = true →
     serve database (request "GET" ("/albums/" +:+ id)) d =
       match d !! id with
       | None => (json_response StatusNotFound ∅ (envelope StatusNotFound ErrorNotFound), d)
       | Some album => (json_response StatusOK ∅ (Marshal_Album album), d)
       end).
Proof.
  split; [|split].
  - unfold GetAlbumByID. by destruct (d !! id).
  - unfold GetAlbumByID. destruct (d !! id) eqn:E; simpl.
    + split; eauto.
    + split; [done|]. by intros [? ?].
  - intros Hne Hns. unfold request. rewrite serve_GET_item by done.
    simpl. unfold GetAlbumByID. by destruct (d !! id).
Qed.

Lemma GetAlbumByID_found_or_NotFound_witness :
  GetAlbumByID "a3" newTestServer = (Album_zero, Some ErrDoesNotExist)
  ∧ GetAlbumByID "a1" newTestServer = (a1, None)
  ∧ serve database (request "GET" "/albums/a3") newTestServer
    = (json_response 404 ∅ (envelope 404 "not-found"), newTestServer)
  ∧ serve database (request "GET" "/albums/a1") newTestServer
    = (json_response 200 ∅ (Marshal_Album a1), newTestServer).
Proof.
  pose proof (GetAlbumByID_found_or_NotFound newTestServer "a3") as (H3 & _ & S3).
  pose proof (GetAlbumByID_found_or_NotFound newTestServer "a1") as (H1 & _ & S1).
  change (newTestServer !! "a3"%string) with (@None Album) in *.
  change (newTestServer !! "a1"%string) with (Some a1) in *.
  refine (conj H3 (conj H1 (conj (S3 _ _) (S1 _ _)))); (discriminate || reflexivity).
Defined.

(** C3: in a store whose entries are keyed by their ID (every store
    built by [AddAlbum]), after a run of [AddAlbum] calls with pairwise
    distinct IDs, [GetAlbums] succeeds with a list that holds every
    stored album exactly once (no duplicates, the stored albums and
    nothing else, as many as the map has entries, the inserted albums
    with a free ID among them) in strictly ascending order of ID; the
    list is the same for every order of the inserts, for every order in
    which the [range] loop visits the map, and it is the only ascending
    arrangement of the stored albums. *)
Theorem GetAlbums_sorted_any_order (d : gmap string Album) (l1 l2 : list Album) :
  keyed_by_ID d → NoDup (ID <$> l1) → l1 ≡ₚ l2 →
  ∃ albums,
    GetAlbums (AddAlbums l1 d) = (Some albums, None) ∧
    GetAlbums (AddAlbums l2 d) = (Some albums, None) ∧
    StronglySorted ascending_ID albums ∧
    NoDup albums ∧
    (∀ a, a ∈ albums ↔ AddAlbums l1 d !! ID a = Some a) ∧
    length albums = size (AddAlbums l1 d) ∧
    (∀ a, a ∈ l1 → d !! ID a = None → a ∈ albums) ∧
    (∀ visit, visit ≡ₚ map_to_list (AddAlbums l1 d) → GetAlbums_visiting visit = albums) ∧
    (∀ out, out ≡ₚ (map_to_list (AddAlbums l1 d)).*2 →
            StronglySorted ascending_ID out → out = albums).
Proof.
  intros Hd Hnd Hp.
  rewrite <-(AddAlbums_order_irrelevant l1 l2 d Hnd Hp).
  pose proof (keyed_by_ID_AddAlbums l1 d Hd) as Hd'.
  set (d' := AddAlbums l1 d) in *.
  pose proof (values_NoDup_ID d' Hd') as Hids.
  exists (sort_Slice less (map_to_list d').*2).
  assert (sort_Slice less (map_to_list d').*2 ≡ₚ (map_to_list d').*2) as Hperm
    by apply (sort_Slice_perm ID).
  repeat apply conj.
  - unfold GetAlbums. by rewrite GetAlbums_visiting_eq.
  - unfold GetAlbums. by rewrite GetAlbums_visiting_eq.
  - by apply (sort_Slice_sorted ID).
  - rewrite Hperm. by apply (NoDup_fmap_1 ID).
  - intros a. rewrite Hperm. by apply elem_of_values.
  - by rewrite Hperm, length_fmap, length_map_to_list.
  - intros a Hin Hfree. rewrite Hperm. apply elem_of_values; [done|].
    by apply AddAlbums_lookup_fresh.
  - intros visit Hv. rewrite GetAlbums_visiting_eq.
    apply (sort_Slice_order_irrelevant ID); [by rewrite Hv|by rewrite Hv].
  - intros out Hout Hs. by apply (sort_Slice_unique ID).
Qed.

Lemma GetAlbums_sorted_any_order_witness :
  GetAlbums (AddAlbums [a2; a1] NewMemoryDatabase) = (Some [a1; a2], None)
  ∧ GetAlbums (AddAlbums [a1; a2] NewMemoryDatabase) = (Some [a1; a2], None).
Proof.
  assert (NoDup (ID <$> [a2; a1])) as Hnd by (apply (bool_decide_unpack _); exact I).
  destruct (GetAlbums_sorted_any_order NewMemoryDatabase [a2; a1] [a1; a2]
              keyed_by_ID_New Hnd (perm_swap a1 a2 []))
    as (albums & E1 & E2 & _).
  assert (albums = [a1; a2]) as ->.
  { assert (Some albums = Some [a1; a2]) as [= ->]; [|reflexivity].
    exact (eq_trans (eq_sym (f_equal fst E1)) eq_refl). }
  exact (conj E1 E2).
Defined.

(** C2, amended: in the in-memory store, [AddAlbum] of an album [e]
    whose ID is absent succeeds and [GetAlbumByID] of that ID then
    returns [e] itself; and a POST /albums that is answered with 201 has
    decoded its body into an album [e] with a free ID, answers with
    exactly [e] (the body decodes back to [e], field for field), has
    stored [e], and, when the ID contains no slash, a subsequent
    GET /albums/{id} answers 200 with the same body. *)
Theorem insert_then_get_roundtrip (d : gmap string Album) :
  (∀ e, d !! ID e = None →
        (AddAlbum e d).1 = None ∧ GetAlbumByID (ID e) (AddAlbum e d).2 = (e, None))
  ∧ (∀ b resp d',
       serve database (POST_albums b) d = (resp, d') →
       StatusCode resp = StatusCreated →
       ∃ e,
         Unmarshal b Album_zero = (e, None) ∧
         d !! ID e = None ∧
         resp = json_response StatusCreated ∅ (Marshal_Album e) ∧
         json_Unmarshal (Marshal_Album e) Album_zero = (e, None) ∧
         d' = (AddAlbum e d).2 ∧
         GetAlbumByID (ID e) d' = (e, None) ∧
         (no_slash (ID e) = true →
          serve database (request "GET" ("/albums/" +:+ ID e)) d'
          = (json_response StatusOK ∅ (Marshal_Album e), d'))).
Proof.
  assert (∀ e, d !! ID e = None →
               (AddAlbum e d).1 = None ∧ GetAlbumByID (ID e) (AddAlbum e d).2 = (e, None))
    as Hstore.
  { intros e He. unfold AddAlbum, GetAlbumByID. rewrite He. simpl.
    by rewrite lookup_insert_eq. }
  split; [exact Hstore|].
  intros b resp d' Hserve Hcreated.
  destruct (Unmarshal b Album_zero) as [e [err|]] eqn:Hu.
  { rewrite (serve_POST_unmarshal_error _ _ _ _ _ Hu) in Hserve.
    by injection Hserve as <- <-. }
  rewrite (serve_POST_decoded _ _ _ _ Hu) in Hserve.
  destruct (decide (issues_of e = ∅)) as [Hi|Hi].
  2:{ rewrite (bool_decide_eq_false_2 _ Hi) in Hserve. by injection Hserve as <- <-. }
  rewrite (bool_decide_eq_true_2 _ Hi) in Hserve.
  destruct (d !! ID e) as [old|] eqn:He.
  { simpl in Hserve. unfold AddAlbum in Hserve. rewrite He in Hserve. simpl in Hserve.
    by injection Hserve as <- <-. }
  destruct (Hstore e He) as [Hadd Hget].
  assert (AddAlbum e d = (None, <[ID e := e]> d)) as Hins
    by (unfold AddAlbum; by rewrite He).
  simpl in Hserve. rewrite Hins in Hserve, Hget. simpl in Hserve, Hget.
  injection Hserve as <- <-.
  apply issues_of_empty in Hi as (Hid & _ & _ & Hprice).
  exists e. rewrite Hins. simpl. repeat apply conj; try done.
  - apply Marshal_Album_roundtrip. unfold in_int64. lia.
  - intros Hns. unfold request. rewrite serve_GET_item by done.
    simpl. unfold GetAlbumByID. by rewrite lookup_insert_eq.
Qed.

Lemma insert_then_get_roundtrip_witness :
  serve database (POST_albums a9_body) newTestServer
  = (json_response 201 ∅ (Marshal_Album a9), (AddAlbum a9 newTestServer).2)
  ∧ serve database (request "GET" "/albums/a9") (AddAlbum a9 newTestServer).2
    = (json_response 200 ∅ (Marshal_Album a9), (AddAlbum a9 newTestServer).2)
  ∧ GetAlbumByID "a9" (AddAlbum a9 newTestServer).2 = (a9, None).
Proof.
  destruct (insert_then_get_roundtrip newTestServer) as [Hstore Hhttp].
  destruct (Hhttp a9_body _ _ eq_refl eq_refl)
    as (e & Hu & _ & Hresp & _ & Hd' & _ & Hget).
  assert (e = a9) as -> by (by injection Hu as <-).
  destruct (Hstore a9 eq_refl) as [_ Hlookup].
  exact (conj eq_refl (conj (Hget eq_refl) Hlookup)).
Defined.

(** C2 without the restriction on the ID does not hold: for an ID with a
    slash the POST is answered with 201 and the album is stored, and the
    subsequent GET /albums/{id} is answered with 404. *)
Lemma created_with_slash_not_served :
  let e := mkAlbum "a/b" "Foo" "Bar" 0 in
  let body := TextOf (JObject [("id"%string, JString "a/b"); ("title"%string, JString "Foo");
                               ("artist"%string, JString "Bar")]) in
  let d' := <["a/b"%string := e]> newTestServer in
  newTestServer !! ID e = None
  ∧ serve database (POST_albums body) newTestServer
    = (json_response 201 ∅ (Marshal_Album e), d')
  ∧ GetAlbumByID (ID e) d' = (e, None)
  ∧ serve database (request "GET" ("/albums/" +:+ ID e)) d'
    = (json_response 404 ∅ (envelope 404 "not-found"), d').
Proof. repeat split. Qed.

(** C4: for a create payload that decodes into an album, the issue map
    built by [addAlbum] has [id], [title] and [artist] as [required]
    exactly when the field is empty (as it is when the payload has no
    such member), [price] as [out-of-range] exactly when the price is
    outside [0, 100000), and no other key; when the map is not empty the
    answer is the single 400 [validation] envelope carrying the whole map
    and the store is not touched.  The payload [{}] is answered with
    [id], [title], [artist] required, the payload [{"price": -1}] with
    these three and [price] out of range. *)
Theorem validation_reports_every_issue
    (D : Database) (σ : db_state D) (b : bytes) (album : Album) :
  Unmarshal b Album_zero = (album, None) →
  let issues := issues_of album in
  (issues !! "id"%string = Some required ↔ ID album = "")
  ∧ (issues !! "title"%string = Some required ↔ Title album = "")
  ∧ (issues !! "artist"%string = Some required ↔ Artist album = "")
  ∧ (issues !! "price"%string = Some out_of_range ↔ ¬ (0 ≤ Price album < 100000))
  ∧ (∀ k v, issues !! k = Some v →
            (k = "price"%string ∧ v = out_of_range)
            ∨ (k ∈ ["id"; "title"; "artist"]%string ∧ v = required))
  ∧ (∀ f members, b = TextOf (JObject members) →
                  Forall (λ kv, ¬ names_field f kv) members →
                  field_of f album = field_of f Album_zero)
  ∧ (issues ≠ ∅ →
     serve D (POST_albums b) σ
     = (json_response StatusBadRequest ∅
          (envelope_with StatusBadRequest ErrorValidation (Marshal_map issues)), σ))
  ∧ (issues = ∅ → StatusCode (serve D (POST_albums b) σ).1 ≠ StatusBadRequest)
  ∧ serve D (POST_albums (TextOf (JObject []))) σ
    = (json_response 400 ∅
         (envelope_with 400 "validation"
            (JObject [("artist"%string, JObject [("error"%string, JString "required")]);
                      ("id"%string, JObject [("error"%string, JString "required")]);
                      ("title"%string, JObject [("error"%string, JString "required")])])),
       σ)
  ∧ serve D (POST_albums (TextOf (JObject [("price"%string, JInt (-1))]))) σ
    = (json_response 400 ∅
         (envelope_with 400 "validation"
            (JObject [("artist"%string, JObject [("error"%string, JString "required")]);
                      ("id"%string, JObject [("error"%string, JString "required")]);
                      ("price"%string,
                       JObject [("error"%string, JString "out-of-range");
                                ("message"%string,
                                 JString "price must be between 0 and $1000")]);
                      ("title"%string, JObject [("error"%string, JString "required")])])),
       σ).
Proof.
  intros Hu issues.
  destruct (issues_of_lookup album) as (Hi & Ht & Ha & Hp & Hk).
  fold issues in Hi, Ht, Ha, Hp, Hk.
  split_and!.
  - rewrite Hi. destruct (String.eqb_spec (ID album) ""); naive_solver.
  - rewrite Ht. destruct (String.eqb_spec (Title album) ""); naive_solver.
  - rewrite Ha. destruct (String.eqb_spec (Artist album) ""); naive_solver.
  - rewrite Hp. destruct (Price album <? 0) eqn:E1; simpl;
      [split; [lia|done]|].
    destruct (Price album >=? 100000) eqn:E2; simpl; [split; [lia|done]|].
    split; [done|lia].
  - intros k v Hkv.
    destruct (decide (k = "price"%string)) as [->|Hnp].
    { left. rewrite Hp in Hkv. by destruct (_ || _); simplify_eq. }
    right.
    destruct (decide (k = "id"%string)) as [->|Hni].
    { rewrite Hi in Hkv. destruct (String.eqb (ID album) ""); simplify_eq.
      split; [set_solver|done]. }
    destruct (decide (k = "title"%string)) as [->|Hnt].
    { rewrite Ht in Hkv. destruct (String.eqb (Title album) ""); simplify_eq.
      split; [set_solver|done]. }
    destruct (decide (k = "artist"%string)) as [->|Hna].
    { rewrite Ha in Hkv. destruct (String.eqb (Artist album) ""); simplify_eq.
      split; [set_solver|done]. }
    by rewrite Hk in Hkv.
  - intros f members -> Hall. unfold Unmarshal in Hu.
    pose proof (json_Unmarshal_absent f members Album_zero Hall) as Habs.
    destruct (json_Unmarshal (JObject members) Album_zero) as [a' e'].
    by simplify_eq/=.
  - intros Hne. rewrite (serve_POST_decoded _ _ _ _ Hu).
    by rewrite (bool_decide_eq_false_2 _ Hne).
  - intros He. rewrite (serve_POST_decoded _ _ _ _ Hu).
    rewrite (bool_decide_eq_true_2 _ He).
    destruct (db_AddAlbum D album σ) as [[e|] σ']; simpl; [|done].
    by destruct (errors_Is_chain e ErrAlreadyExists).
  - by rewrite (serve_POST_decoded D (TextOf (JObject [])) Album_zero σ eq_refl).
  - by rewrite (serve_POST_decoded D (TextOf (JObject [("price"%string, JInt (-1))]))
                  (mkAlbum "" "" "" (-1)) σ eq_refl).
Qed.

Lemma validation_reports_every_issue_witness :
  Unmarshal (TextOf (JObject [("price"%string, JInt (-1))])) Album_zero
  = (mkAlbum "" "" "" (-1), None)
  ∧ issues_of (mkAlbum "" "" "" (-1)) !! "price"%string = Some out_of_range
  ∧ StatusCode (serve database
                  (POST_albums (TextOf (JObject [("price"%string, JInt (-1))])))
                  newTestServer).1 = 400.
Proof.
  destruct (validation_reports_every_issue database newTestServer
              (TextOf (JObject [("price"%string, JInt (-1))]))
              (mkAlbum "" "" "" (-1)) eq_refl)
    as (_ & _ & _ & Hprice & _ & _ & Hserve & _).
  split; [reflexivity|]. split.
  - apply Hprice. simpl. lia.
  - rewrite Hserve; [reflexivity|]. apply (bool_decide_unpack _). exact I.
Defined.

(** C5: the dispatch of [ServeHTTP].  On the path [/albums], GET runs
    [getAlbums] (200 with the in-memory store) and POST runs [addAlbum]
    (201 for a valid album with a free ID); any other method is answered
    405 with [Allow: GET, POST].  On a path [/albums/{id}] whose id is
    one non-empty segment without a slash, GET runs [getAlbumByID] with
    that id and any other method is answered 405 with [Allow: GET].
    Every other path, [/albums/] with an empty id and paths with further
    segments among them, is answered 404. *)
Theorem ServeHTTP_dispatch (D : Database) (w : ResponseWriter) (r : Request)
    (σ : db_state D) :
  (URL_Path r = "/albums" →
     (Method r = "GET" → ServeHTTP D w r σ = getAlbums D w r σ)
     ∧ (Method r = "POST" → ServeHTTP D w r σ = addAlbum D w r σ)
     ∧ (Method r ≠ "GET" → Method r ≠ "POST" →
        serve D r σ
        = (json_response StatusMethodNotAllowed {[ "Allow"%string := "GET, POST"%string ]}
             (envelope StatusMethodNotAllowed ErrorMethodNotAllowed), σ)))
  ∧ (∀ id, URL_Path r = "/albums/" +:+ id → id ≠ "" → no_slash id = true →
     (Method r = "GET" → ServeHTTP D w r σ = getAlbumByID D w r id σ)
     ∧ (Method r ≠ "GET" →
        serve D r σ
        = (json_response StatusMethodNotAllowed {[ "Allow"%string := "GET"%string ]}
             (envelope StatusMethodNotAllowed ErrorMethodNotAllowed), σ)))
  ∧ (URL_Path r ≠ "/albums" →
     (∀ id, URL_Path r = "/albums/" +:+ id → id = "" ∨ no_slash id = false) →
     serve D r σ
     = (json_response StatusNotFound ∅ (envelope StatusNotFound ErrorNotFound), σ))
  ∧ (∀ d : gmap string Album,
       StatusCode (serve database (request "GET" "/albums") d).1 = StatusOK
       ∧ (∀ b e, Unmarshal b Album_zero = (e, None) → issues_of e = ∅ → d !! ID e = None →
                 StatusCode (serve database (POST_albums b) d).1 = StatusCreated)
       ∧ StatusCode (serve database (request "GET" "/albums/") d).1 = StatusNotFound
       ∧ StatusCode (serve database (request "GET" "/albums/foo/bar") d).1 = StatusNotFound).
Proof.
  destruct r as [method path body]. cbn [URL_Path Method]. split_and!.
  - intros ->. split_and!.
    + by intros ->.
    + by intros ->.
    + intros Hg Hp. by apply serve_method_not_allowed_collection.
  - intros id -> Hne Hns. split.
    + intros ->. unfold ServeHTTP. cbn [URL_Path Method].
      by rewrite item_not_collection, (match_item _ Hne Hns).
    + intros Hg. by apply serve_method_not_allowed_item.
  - intros Hc Hi. by apply serve_not_found.
  - intros d. split_and!.
    + unfold request. by rewrite serve_GET_albums.
    + intros b e Hu Hv He. rewrite (serve_POST_decoded _ _ _ _ Hu).
      rewrite (bool_decide_eq_true_2 _ Hv). simpl. unfold AddAlbum. by rewrite He.
    + done.
    + done.
Qed.

Lemma ServeHTTP_dispatch_witness :
  serve database (request "PUT" "/albums") newTestServer
  = (json_response 405 {[ "Allow"%string := "GET, POST"%string ]}
       (envelope 405 "method-not-allowed"), newTestServer)
  ∧ serve database (request "PUT" "/albums/a1") newTestServer
    = (json_response 405 {[ "Allow"%string := "GET"%string ]}
         (envelope 405 "method-not-allowed"), newTestServer)
  ∧ serve database (request "GET" "/albums/foo/bar") newTestServer
    = (json_response 404 ∅ (envelope 404 "not-found"), newTestServer)
  ∧ ServeHTTP database NewRecorder (request "GET" "/albums/a1") newTestServer
    = getAlbumByID database NewRecorder (request "GET" "/albums/a1") "a1" newTestServer.
Proof.
  destruct (ServeHTTP_dispatch database NewRecorder (request "PUT" "/albums") newTestServer)
    as ((_ & _ & Hput) & _).
  { reflexivity. }
  destruct (ServeHTTP_dispatch database NewRecorder (request "PUT" "/albums/a1")
              newTestServer) as (_ & Hitem & _).
  destruct (ServeHTTP_dispatch database NewRecorder (request "GET" "/albums/foo/bar")
              newTestServer) as (_ & _ & Hnf & _).
  destruct (ServeHTTP_dispatch database NewRecorder (request "GET" "/albums/a1")
              newTestServer) as (_ & Hget & _).
  refine (conj (Hput _ _) (conj (proj2 (Hitem "a1"%string eq_refl _ eq_refl) _)
            (conj (Hnf _ _) (proj1 (Hget "a1"%string eq_refl _ eq_refl) eq_refl))));
    try discriminate.
  intros id Hid%after_prefix_Some. right.
  injection Hid as <-. reflexivity.
Defined.

(** C6: for any database behind the server.  A create request whose
    album passes validation is answered by the outcome of [AddAlbum]: an
    error that is [ErrAlreadyExists] (Conflict) gives 409
    [already-exists], any other error gives 500 [database], no error
    gives 201 with the album.  GET /albums/{id} turns
    [ErrDoesNotExist] (NotFound) into 404 [not-found], any other error
    into 500 [database]; GET /albums turns an error of the store into 500
    [database].  A failure of reading the POST body gives 500
    [internal]; a body that does not decode gives 400 [malformed-json]
    with the decoder's message. *)
Theorem store_failures_translated (D : Database) (σ : db_state D) :
  (∀ b album, Unmarshal b Album_zero = (album, None) → issues_of album = ∅ →
     serve D (POST_albums b) σ =
       let '(err, σ') := db_AddAlbum D album σ in
       if errors_Is err ErrAlreadyExists then
         (json_response StatusConflict ∅ (envelope StatusConflict ErrorAlreadyExists), σ')
       else
         match err with
         | Some _ =>
             (json_response StatusInternalServerError ∅
                (envelope StatusInternalServerError ErrorDatabase), σ')
         | None => (json_response StatusCreated ∅ (Marshal_Album album), σ')
         end)
  ∧ (∀ id, id ≠ "" → no_slash id = true →
     serve D (request "GET" ("/albums/" +:+ id)) σ =
       let '((album, err), σ') := db_GetAlbumByID D id σ in
       if errors_Is err ErrDoesNotExist then
         (json_response StatusNotFound ∅ (envelope StatusNotFound ErrorNotFound), σ')
       else
         match err with
         | Some _ =>
             (json_response StatusInternalServerError ∅
                (envelope StatusInternalServerError ErrorDatabase), σ')
         | None => (json_response StatusOK ∅ (Marshal_Album album), σ')
         end)
  ∧ (∀ albums e σ', db_GetAlbums D σ = ((albums, Some e), σ') →
     serve D (request "GET" "/albums") σ
     = (json_response StatusInternalServerError ∅
          (envelope StatusInternalServerError ErrorDatabase), σ'))
  ∧ (∀ e, serve D (mkRequest "POST" "/albums" (ErrReader e)) σ
          = (json_response StatusInternalServerError ∅
               (envelope StatusInternalServerError ErrorInternal), σ))
  ∧ (∀ b album err, Unmarshal b Album_zero = (album, Some err) →
     serve D (POST_albums b) σ
     = (json_response StatusBadRequest ∅
          (envelope_with StatusBadRequest ErrorMalformedJSON
             (JObject [("message"%string, JString (json_error_Error err))])), σ)).
Proof.
  split_and!.
  - intros b album Hu Hv. rewrite (serve_POST_decoded _ _ _ _ Hu).
    rewrite (bool_decide_eq_true_2 _ Hv).
    destruct (db_AddAlbum D album σ) as [[e|] σ']; simpl; [|done].
    by destruct (errors_Is_chain e ErrAlreadyExists).
  - intros id Hne Hns. unfold request. rewrite serve_GET_item by done.
    destruct (db_GetAlbumByID D id σ) as [[album [e|]] σ']; simpl; [|done].
    by destruct (errors_Is_chain e ErrDoesNotExist).
  - intros albums e σ' Hdb. unfold request. by rewrite serve_GET_albums, Hdb.
  - intros e. apply serve_POST_read_error.
  - intros b album err Hu. by eapply serve_POST_unmarshal_error.
Qed.

Lemma store_failures_translated_witness :
  serve database (POST_albums a2_again_body) newTestServer
  = (json_response 409 ∅ (envelope 409 "already-exists"), newTestServer)
  ∧ serve errorDatabase (POST_albums a9_no_price_body) ()
    = (json_response 500 ∅ (envelope 500 "database"), ())
  ∧ serve errorDatabase (request "GET" "/albums/a1") ()
    = (json_response 500 ∅ (envelope 500 "database"), ())
  ∧ serve database (request "GET" "/albums/a3") newTestServer
    = (json_response 404 ∅ (envelope 404 "not-found"), newTestServer)
  ∧ serve errorDatabase (request "GET" "/albums") ()
    = (json_response 500 ∅ (envelope 500 "database"), ())
  ∧ serve database (POST_albums at_sign_body) newTestServer
    = (json_response 400 ∅
         (envelope_with 400 "malformed-json"
            (JObject [("message"%string,
                       JString "invalid character '@' looking for beginning of value")])),
       newTestServer).
Proof.
  destruct (store_failures_translated database newTestServer)
    as (Hadd & Hget & _ & _ & Hbad).
  destruct (store_failures_translated errorDatabase ())
    as (Hadd' & Hget' & Hlist' & _ & _).
  refine (conj (Hadd a2_again_body a2_again eq_refl _)
         (conj (Hadd' a9_no_price_body a9_no_price eq_refl _)
         (conj (Hget' "a1"%string _ eq_refl)
         (conj (Hget "a3"%string _ eq_refl)
         (conj (Hlist' None _ () eq_refl)
               (Hbad at_sign_body Album_zero _ eq_refl))))));
    first [discriminate | apply (bool_decide_unpack _); exact I].
Defined.

(** C8: the response to any request, with any database behind the
    server, has the header [Content-Type: application/json;
    charset=utf-8] and one JSON text as its body, be it an album, a list
    or an error envelope (the [text/plain] branch of [writeJSON] is never
    taken, for no value the handlers encode is rejected by the encoder).
    An envelope without structured data, nil or an empty map, is encoded
    with the members [status] and [error] only; in a response the member
    [data], when there is one, is the object of a map that is not
    empty. *)
Theorem responses_are_JSON (D : Database) (r : Request) (σ : db_state D) :
  let resp := (serve D r σ).1 in
  RespHeader resp !! "Content-Type"%string = Some "application/json; charset=utf-8"%string
  ∧ (∃ b, RespBody resp = [Indented b])
  ∧ (∀ v, ∃ b, json_MarshalIndent v = inl b)
  ∧ (∀ status kind,
       json_MarshalIndent (VResponse status kind None)
       = inl (JObject [("status"%string, JInt status); ("error"%string, JString kind)])
       ∧ json_MarshalIndent (VResponse status kind (Some ∅))
         = inl (JObject [("status"%string, JInt status); ("error"%string, JString kind)]))
  ∧ (∀ s members,
       RespBody resp = [Indented (JObject (("status"%string, JInt s) :: members))] →
       ∃ kind, members = [("error"%string, JString kind)]
               ∨ ∃ (m : gmap string dataval) kv fields,
                   m ≠ ∅ ∧ Marshal_map m = JObject (kv :: fields) ∧
                   members = [("error"%string, JString kind);
                              ("data"%string, Marshal_map m)]).
Proof.
  intros resp. subst resp.
  destruct (serve_outcome D r σ) as (status & v & extra & b & Hb & Hresp & Hv).
  rewrite Hresp. split_and!.
  - simpl. apply lookup_insert_eq.
  - by exists b.
  - apply json_MarshalIndent_total.
  - done.
  - simpl. intros s members [= ->].
    destruct (album_body_not_envelope _ _ _ _ Hb eq_refl) as (kind & data & ->).
    exists kind.
    destruct (envelope_members _ _ _ _ Hb) as [Hnil|(m & Hm & _ & Hwith)].
    + left. by injection Hnil as ->.
    + right. destruct (Marshal_map_members m Hm) as (kv & fields & Hfields).
      exists m, kv, fields. split; [done|]. split; [done|]. by injection Hwith as ->.
Qed.

Lemma responses_are_JSON_witness :
  RespHeader (serve database (POST_albums (TextOf (JObject []))) newTestServer).1
    !! "Content-Type"%string = Some "application/json; charset=utf-8"%string
  ∧ RespHeader (serve database (request "DELETE" "/nowhere") newTestServer).1
      !! "Content-Type"%string = Some "application/json; charset=utf-8"%string
  ∧ ∃ kind, [("error"%string, JString "not-found")] = [("error"%string, JString kind)]
            ∨ ∃ (m : gmap string dataval) kv fields,
                m ≠ ∅ ∧ Marshal_map m = JObject (kv :: fields) ∧
                [("error"%string, JString "not-found")]
                = [("error"%string, JString kind); ("data"%string, Marshal_map m)].
Proof.
  destruct (responses_are_JSON database (POST_albums (TextOf (JObject []))) newTestServer)
    as (Hct & _).
  destruct (responses_are_JSON database (request "DELETE" "/nowhere") newTestServer)
    as (Hct' & _ & _ & _ & Hdata).
  exact (conj Hct (conj Hct' (Hdata 404 [("error"%string, JString "not-found")] eq_refl))).
Defined.

(** C10: [jsonError] on a writer without status line writes the status
    it is given both as the status of the response and as the member
    [status] of the envelope; and in the response to any request, with
    any database, a body that is an envelope (first member [status])
    carries the status code of the response, and every response with a
    status of 400 or more has such an envelope as its body, its kind one
    of the seven error kinds. *)
Theorem envelope_status_is_response_status (D : Database) (r : Request) (σ : db_state D) :
  (∀ h status kind data,
     Result (jsonError (mkWriter h None []) status kind data)
     = mkResponse status (<["Content-Type"%string := json_utf8]> h)
         [Indented (JObject (("status"%string, JInt status)
                             :: ("error"%string, JString kind)
                             :: omitempty_map "data" data))])
  ∧ let resp := (serve D r σ).1 in
    (∀ s members,
       RespBody resp = [Indented (JObject (("status"%string, JInt s) :: members))] →
       s = StatusCode resp)
    ∧ (400 ≤ StatusCode resp →
       ∃ kind members,
         kind ∈ error_kinds ∧
         RespBody resp = [Indented (JObject (("status"%string, JInt (StatusCode resp))
                                             :: ("error"%string, JString kind)
                                             :: members))]).
Proof.
  split; [done|]. intros resp. subst resp.
  destruct (serve_outcome D r σ) as (status & v & extra & b & Hb & Hresp & Hv).
  rewrite Hresp. simpl. split.
  - intros s members [= ->].
    destruct (album_body_not_envelope _ _ _ _ Hb eq_refl) as (kind & data & ->).
    by destruct Hv as [-> _].
  - intros Hge. destruct v as [albums|album|s kind data].
    + unfold StatusOK in Hv. lia.
    + unfold StatusOK, StatusCreated in Hv. lia.
    + destruct Hv as (-> & Hkind & _). exists kind, (omitempty_map "data" data).
      split; [done|]. simpl in Hb. by injection Hb as <-.
Qed.

Lemma envelope_status_is_response_status_witness :
  400 ≤ StatusCode (serve database (POST_albums a2_again_body) newTestServer).1
  ∧ ∃ kind members,
      kind ∈ error_kinds ∧
      RespBody (serve database (POST_albums a2_again_body) newTestServer).1
      = [Indented (JObject (("status"%string, JInt 409)
                            :: ("error"%string, JString kind) :: members))].
Proof.
  destruct (envelope_status_is_response_status database (POST_albums a2_again_body)
              newTestServer) as (_ & _ & Henv).
  assert (400 ≤ StatusCode (serve database (POST_albums a2_again_body) newTestServer).1)
    as Hge by (intros H; discriminate H).
  exact (conj Hge (Henv Hge)).
Defined.

(** C9, amended: a create request whose body is an object that
    decodes into an album with non-empty ID, title and artist, that has
    no member for the price, and whose ID is not yet in the in-memory
    store: the decoded price is 0, validation finds nothing, the answer
    is 201 with the album, and the album is stored with price 0. *)
Theorem price_omitted_is_zero
    (d : gmap string Album) (members : list (string * json)) (album : Album) :
  Unmarshal (TextOf (JObject members)) Album_zero = (album, None) →
  Forall (λ kv, ¬ names_field FPrice kv) members →
  ID album ≠ "" → Title album ≠ "" → Artist album ≠ "" →
  d !! ID album = None →
  Price album = 0
  ∧ issues_of album = ∅
  ∧ serve database (POST_albums (TextOf (JObject members))) d
    = (json_response StatusCreated ∅ (Marshal_Album album), <[ID album := album]> d)
  ∧ (Price <$> (<[ID album := album]> d !! ID album)) = Some 0.
Proof.
  intros Hu Hall Hid Htitle Hartist Hfree.
  assert (Price album = 0) as Hprice.
  { pose proof (json_Unmarshal_absent FPrice members Album_zero Hall) as Habs.
    unfold Unmarshal in Hu.
    destruct (json_Unmarshal (JObject members) Album_zero) as [a' e'].
    injection Hu as -> _. simpl in Habs. by injection Habs. }
  assert (issues_of album = ∅) as Hvalid.
  { apply issues_of_empty. rewrite Hprice. repeat split; try done; lia. }
  split_and!; try done.
  - rewrite (serve_POST_decoded _ _ _ _ Hu), (bool_decide_eq_true_2 _ Hvalid).
    simpl. unfold AddAlbum. by rewrite Hfree.
  - by rewrite lookup_insert_eq, <-Hprice.
Qed.

Lemma price_omitted_is_zero_witness :
  serve database (POST_albums a9_no_price_body) newTestServer
  = (json_response 201 ∅
       (JObject [("id"%string, JString "a9"); ("title"%string, JString "Pianoman");
                 ("artist"%string, JString "Billy Joel")]),
     <["a9"%string := a9_no_price]> newTestServer)
  ∧ (Price <$> (<["a9"%string := a9_no_price]> newTestServer !! "a9"%string)) = Some 0.
Proof.
  assert (Forall (λ kv, ¬ names_field FPrice kv) a9_no_price_members) as Hall
    by (repeat constructor; discriminate).
  destruct (price_omitted_is_zero newTestServer a9_no_price_members a9_no_price
              eq_refl Hall) as (_ & _ & Hserve & Hstored);
    try discriminate; [reflexivity|].
  exact (conj Hserve Hstored).
Defined.

(** C9 without the condition on the ID does not hold
    ([TestAddAlbumAlreadyExists]): the body has non-empty id, title and
    artist and no price, the ID is taken, the answer is 409 and the store
    is as it was. *)
Lemma price_omitted_ID_taken :
  Unmarshal a2_again_body Album_zero = (a2_again, None)
  ∧ Forall (λ kv, ¬ names_field FPrice kv) a2_again_members
  ∧ ID a2_again ≠ "" ∧ Title a2_again ≠ "" ∧ Artist a2_again ≠ ""
  ∧ serve database (POST_albums a2_again_body) newTestServer
    = (json_response 409 ∅ (envelope 409 "already-exists"), newTestServer)
  ∧ newTestServer !! "a2"%string = Some a2.
Proof.
  split_and!; try done. repeat constructor; discriminate.
Qed.

(** * Further properties of the server with the error envelope *)

(** ** Exchanges with the in-memory database *)

(** An exchange leaves the store as it is, or it is a create that is
    answered 201 and adds the decoded album under a free ID. *)
Lemma serve_memory_cases (r : Request) (d : gmap string Album) :
  (StatusCode (serve database r d).1 ≠ StatusCreated ∧ (serve database r d).2 = d)
  ∨ ∃ b e,
      r = POST_albums b ∧ Unmarshal b Album_zero = (e, None) ∧
      issues_of e = ∅ ∧ d !! ID e = None ∧
      serve database r d
      = (json_response StatusCreated ∅ (Marshal_Album e), <[ID e := e]> d).
Proof.
  destruct r as [method path body].
  destruct (String.eqb_spec path "/albums") as [->|Hpath].
  - destruct (String.eqb_spec method "GET") as [->|Hget].
    { left. by rewrite serve_GET_albums. }
    destruct (String.eqb_spec method "POST") as [->|Hpost].
    2:{ left. by rewrite serve_method_not_allowed_collection. }
    destruct body as [e|b].
    { left. by rewrite serve_POST_read_error. }
    change (mkRequest "POST" "/albums" (BytesReader b)) with (POST_albums b).
    destruct (Unmarshal b Album_zero) as [e [err|]] eqn:Hu.
    { left. by rewrite (serve_POST_unmarshal_error _ _ _ _ _ Hu). }
    rewrite (serve_POST_decoded _ _ _ _ Hu).
    case_bool_decide as Hi; [|by left].
    simpl. unfold AddAlbum. destruct (d !! ID e) eqn:He; simpl; [by left|].
    right. by exists b, e.
  - left. unfold serve, ServeHTTP. cbn [URL_Path Method].
    apply String.eqb_neq in Hpath. rewrite Hpath.
    destruct (match_ path reAlbumsID [""]) as [[] vars]; [|done].
    destruct (String.eqb method "GET"); [|done].
    unfold getAlbumByID. simpl. unfold GetAlbumByID.
    by destruct (d !! default ""%string (head vars)).
Qed.

Lemma all_valid_keyed (d : gmap string Album) : all_valid d → keyed_by_ID d.
Proof. intros Hd k a Hka. by destruct (Hd k a Hka). Qed.

Lemma all_valid_insert (d : gmap string Album) e :
  all_valid d → issues_of e = ∅ → all_valid (<[ID e := e]> d).
Proof.
  intros Hd He k a. rewrite lookup_insert. case_decide; [|by apply Hd].
  by intros [= <-].
Qed.

Lemma keyed_by_ID_insert (d : gmap string Album) e :
  keyed_by_ID d → keyed_by_ID (<[ID e := e]> d).
Proof.
  intros Hd k a. rewrite lookup_insert. case_decide; [|by apply Hd].
  by intros [= <-].
Qed.

Lemma all_valid_empty : all_valid ∅.
Proof. intros k a. by rewrite lookup_empty. Qed.

Lemma all_valid_newTestServer : all_valid newTestServer.
Proof.
  change newTestServer with (<[ID a1 := a1]> (<[ID a2 := a2]> (∅ : gmap string Album))).
  apply all_valid_insert; [apply all_valid_insert; [apply all_valid_empty|]|];
    by apply issues_of_empty.
Qed.

(** X1: no exchange with the in-memory database removes or replaces a
    stored album (the store before is contained in the store after), and
    an exchange keeps the store keyed by ID and keeps every stored album
    valid for the checks of [addAlbum]. *)
Theorem exchange_keeps_store (r : Request) (d : gmap string Album) :
  d ⊆ (serve database r d).2
  ∧ (keyed_by_ID d → keyed_by_ID (serve database r d).2)
  ∧ (all_valid d → all_valid (serve database r d).2).
Proof.
  destruct (serve_memory_cases r d) as [[_ ->]|(b & e & _ & _ & Hv & Hfree & ->)]; simpl.
  - done.
  - split_and!.
    + by apply insert_subseteq.
    + apply keyed_by_ID_insert.
    + intros Hd. by apply all_valid_insert.
Qed.

Lemma exchange_keeps_store_witness :
  newTestServer ⊆ (serve database (POST_albums a9_body) newTestServer).2
  ∧ all_valid (serve database (POST_albums a9_body) newTestServer).2.
Proof.
  destruct (exchange_keeps_store (POST_albums a9_body) newTestServer) as (Hsub & _ & Hvalid).
  exact (conj Hsub (Hvalid all_valid_newTestServer)).
Defined.

(** X2: with the in-memory database, the store changes exactly in the
    exchanges answered 201: any other status leaves the store as it was,
    and a 201 adds one entry, the album of the response body, under an ID
    that was free. *)
Theorem only_created_changes_store (r : Request) (d : gmap string Album) :
  (StatusCode (serve database r d).1 ≠ StatusCreated → (serve database r d).2 = d)
  ∧ (StatusCode (serve database r d).1 = StatusCreated →
     ∃ e, (serve database r d).1 = json_response StatusCreated ∅ (Marshal_Album e) ∧
          d !! ID e = None ∧
          (serve database r d).2 = <[ID e := e]> d ∧
          size (serve database r d).2 = S (size d)).
Proof.
  destruct (serve_memory_cases r d) as [[Hs ->]|(b & e & _ & _ & Hv & Hfree & ->)]; simpl.
  - split; [done|]. intros Hc. by destruct Hs.
  - split; [done|]. intros _. exists e. split_and!; try done.
    by apply map_size_insert_None.
Qed.

Lemma only_created_changes_store_witness :
  (serve database (POST_albums a2_again_body) newTestServer).2 = newTestServer
  ∧ size (serve database (POST_albums a9_body) newTestServer).2 = 3%nat.
Proof.
  destruct (only_created_changes_store (POST_albums a2_again_body) newTestServer)
    as [Hsame _].
  destruct (only_created_changes_store (POST_albums a9_body) newTestServer)
    as [_ Hnew].
  destruct (Hnew eq_refl) as (e & _ & _ & _ & Hsize).
  refine (conj (Hsame _) Hsize). discriminate.
Defined.

(** ** Runs of exchanges *)

Lemma run_snoc (D : Database) rs r (σ : db_state D) :
  run D (rs ++ [r]) σ
  = ((run D rs σ).1 ++ [(serve D r (run D rs σ).2).1], (serve D r (run D rs σ).2).2).
Proof.
  unfold run. rewrite foldl_snoc.
  destruct (foldl _ _ rs) as [resps σ']. simpl. by destruct (serve D r σ').
Qed.

(** X3: in a server started on the empty in-memory database, after any
    run of requests every stored album sits under its own ID and passes
    the checks of [addAlbum] (non-empty ID, title and artist, price in
    [0, 100000)); a run started on any store answers every request and
    never loses a stored album. *)
Theorem run_keeps_store_valid (rs : list Request) :
  (∀ k a, (run database rs NewMemoryDatabase).2 !! k = Some a →
     ID a = k ∧ k ≠ "" ∧ Title a ≠ "" ∧ Artist a ≠ "" ∧ 0 ≤ Price a < 100000)
  ∧ (∀ d : gmap string Album,
       length (run database rs d).1 = length rs
       ∧ d ⊆ (run database rs d).2
       ∧ (all_valid d → all_valid (run database rs d).2)).
Proof.
  assert (∀ d : gmap string Album,
            length (run database rs d).1 = length rs
            ∧ d ⊆ (run database rs d).2
            ∧ (all_valid d → all_valid (run database rs d).2)) as Hrun.
  { intros d. induction rs as [|r rs IH] using rev_ind; [done|].
    destruct IH as (Hlen & Hsub & Hvalid). rewrite run_snoc. cbn [fst snd].
    rewrite !length_app, Hlen. cbn [length].
    destruct (serve_memory_cases r (run database rs d).2)
      as [[_ ->]|(b & e & _ & _ & Hv & Hfree & ->)]; cbn [fst snd].
    - split_and!; [lia|done|done].
    - split_and!; [lia| |].
      + etrans; [exact Hsub|]. by apply insert_subseteq.
      + intros Hd. apply all_valid_insert; auto. }
  split; [|exact Hrun].
  intros k a Hka. destruct (Hrun NewMemoryDatabase) as (_ & _ & Hvalid).
  destruct (Hvalid all_valid_empty k a Hka) as [Hid Hissues].
  apply issues_of_empty in Hissues as (? & ? & ? & ?).
  split_and!; try done; try lia. by rewrite <-Hid.
Qed.

Lemma run_keeps_store_valid_witness :
  length (run database [POST_albums a9_body; request "GET" "/albums"] newTestServer).1
  = 2%nat
  ∧ all_valid (run database [POST_albums a9_body; request "GET" "/albums"] newTestServer).2.
Proof.
  destruct (run_keeps_store_valid [POST_albums a9_body; request "GET" "/albums"])
    as [_ Hrun].
  destruct (Hrun newTestServer) as (Hlen & _ & Hvalid).
  exact (conj Hlen (Hvalid all_valid_newTestServer)).
Defined.

(** ** What a handler reads and writes *)

(** X4: the request body is read by POST /albums only: for any database,
    a request with another method or another path is answered in the
    same way, with the same effect on the database, whatever its body
    is. *)
Theorem body_read_only_by_create
    (D : Database) (r : Request) (body : Reader) (σ : db_state D) :
  ¬ (Method r = "POST" ∧ URL_Path r = "/albums") →
  serve D (with_body r body) σ = serve D r σ.
Proof.
  destruct r as [method path body0]. unfold with_body. cbn [Method URL_Path].
  intros Hnot. unfold serve, ServeHTTP. cbn [Method URL_Path].
  destruct (String.eqb_spec path "/albums") as [->|Hpath]; [|done].
  destruct (String.eqb_spec method "GET") as [->|Hget]; [done|].
  destruct (String.eqb_spec method "POST") as [->|Hpost]; [|done].
  by destruct Hnot.
Qed.

Lemma body_read_only_by_create_witness :
  serve database (with_body (request "GET" "/albums/a1") (ErrReader (errors_New "error")))
        newTestServer
  = serve database (request "GET" "/albums/a1") newTestServer.
Proof.
  apply (body_read_only_by_create database (request "GET" "/albums/a1")).
  intros [H _]. discriminate H.
Defined.

(** X5: for any database, the header of a response is [Content-Type]
    alone, except for the status 405, where it is [Content-Type] and
    [Allow] with the methods of the route; no other status carries
    [Allow]. *)
Theorem Allow_exactly_with_405 (D : Database) (r : Request) (σ : db_state D) :
  (StatusCode (serve D r σ).1 = StatusMethodNotAllowed
   ∧ ((URL_Path r = "/albums"
       ∧ RespHeader (serve D r σ).1
         = <["Content-Type"%string := json_utf8]> {[ "Allow"%string := "GET, POST"%string ]})
      ∨ (URL_Path r ≠ "/albums"
         ∧ RespHeader (serve D r σ).1
           = <["Content-Type"%string := json_utf8]> {[ "Allow"%string := "GET"%string ]})))
  ∨ (StatusCode (serve D r σ).1 ≠ StatusMethodNotAllowed
     ∧ RespHeader (serve D r σ).1 = {[ "Content-Type"%string := json_utf8 ]}).
Proof.
  destruct r as [method path body]. cbn [URL_Path].
  unfold serve, ServeHTTP, getAlbums, addAlbum, getAlbumByID, readJSON, jsonError.
  cbn [URL_Path Method Body].
  destruct (String.eqb_spec path "/albums") as [->|Hpath].
  - repeat case_match; simplify_eq/=;
      try match goal with s : slice Album |- _ => destruct s end;
      first [ by right | left; split; [done|]; left; by split ].
  - repeat case_match; simplify_eq/=;
      first [ by right | left; split; [done|]; right; by split ].
Qed.

(** X6: with the in-memory database the store never fails, so the status
    500 is the answer only to a create whose body cannot be read. *)
Theorem memory_500_only_unreadable_body (r : Request) (d : gmap string Album) :
  StatusCode (serve database r d).1 = StatusInternalServerError →
  Method r = "POST" ∧ URL_Path r = "/albums" ∧ ∃ e, Body r = ErrReader e.
Proof.
  destruct r as [method path body]. cbn [Method URL_Path Body].
  unfold serve, ServeHTTP, getAlbums, addAlbum, getAlbumByID, readJSON, jsonError.
  cbn [URL_Path Method Body].
  destruct (String.eqb_spec path "/albums") as [->|Hpath].
  - destruct (String.eqb_spec method "GET") as [->|Hget]; [done|].
    destruct (String.eqb_spec method "POST") as [->|Hpost]; [|done].
    destruct body as [e|b]; simpl; [by eauto|].
    destruct (Unmarshal b Album_zero) as [album [err|]]; simpl; [done|].
    case_bool_decide; [done|]. simpl. unfold AddAlbum.
    by destruct (d !! ID album).
  - destruct (match_ path reAlbumsID [""]) as [[] vars]; [|done].
    destruct (String.eqb method "GET"); [|done]. simpl. unfold GetAlbumByID.
    by destruct (d !! default ""%string (head vars)).
Qed.

Lemma memory_500_only_unreadable_body_witness :
  Method (mkRequest "POST" "/albums" (ErrReader (errors_New "error"))) = "POST"
  ∧ ∃ e, Body (mkRequest "POST" "/albums" (ErrReader (errors_New "error"))) = ErrReader e.
Proof.
  destruct (memory_500_only_unreadable_body
              (mkRequest "POST" "/albums" (ErrReader (errors_New "error")))
              newTestServer eq_refl) as (Hm & _ & He).
  exact (conj Hm He).
Defined.

(** ** Sequences of exchanges *)

Lemma GetAlbums_listing (d : gmap string Album) :
  keyed_by_ID d →
  ∃ l, GetAlbums d = (Some l, None) ∧ l ≡ₚ (map_to_list d).*2
       ∧ StronglySorted ascending_ID l.
Proof.
  intros Hd. exists (sort_Slice less (map_to_list d).*2). split_and!.
  - unfold GetAlbums. by rewrite GetAlbums_visiting_eq.
  - apply (sort_Slice_perm ID).
  - apply (sort_Slice_sorted ID). by apply values_NoDup_ID.
Qed.

(** X7: with the in-memory database, a create that was answered 201 is
    answered 409 [already-exists] when it is sent again, and the second
    exchange leaves the store as the first one left it. *)
Theorem create_twice_conflicts (b : bytes) (d d' : gmap string Album) (resp : Response) :
  serve database (POST_albums b) d = (resp, d') →
  StatusCode resp = StatusCreated →
  serve database (POST_albums b) d'
  = (json_response StatusConflict ∅ (envelope StatusConflict ErrorAlreadyExists), d').
Proof.
  intros Hserve Hcreated.
  destruct (serve_memory_cases (POST_albums b) d)
    as [[Hs _]|(b' & e & Hb & Hu & Hv & Hfree & Hd')].
  { rewrite Hserve in Hs. by destruct Hs. }
  injection Hb as <-. rewrite Hserve in Hd'. injection Hd' as -> ->.
  rewrite (serve_POST_decoded _ _ _ _ Hu), (bool_decide_eq_true_2 _ Hv).
  simpl. unfold AddAlbum. by rewrite lookup_insert_eq.
Qed.

Lemma create_twice_conflicts_witness :
  serve database (POST_albums a9_body) (<["a9"%string := a9]> newTestServer)
  = (json_response 409 ∅ (envelope 409 "already-exists"), <["a9"%string := a9]> newTestServer).
Proof.
  exact (create_twice_conflicts a9_body newTestServer (<["a9"%string := a9]> newTestServer)
           (json_response 201 ∅ (Marshal_Album a9)) eq_refl eq_refl).
Defined.

(** X8: with the in-memory database keyed by ID, after a create that was
    answered 201, GET /albums answers 200 with a list that contains the
    created album, is one longer than the store was, and is in strictly
    ascending order of ID. *)
Theorem created_album_is_listed (b : bytes) (d d' : gmap string Album) (resp : Response) :
  keyed_by_ID d →
  serve database (POST_albums b) d = (resp, d') →
  StatusCode resp = StatusCreated →
  ∃ e l,
    resp = json_response StatusCreated ∅ (Marshal_Album e) ∧
    serve database (request "GET" "/albums") d'
    = (json_response StatusOK ∅ (JArray (Marshal_Album <$> l)), d') ∧
    e ∈ l ∧
    length l = S (size d) ∧
    StronglySorted ascending_ID l.
Proof.
  intros Hd Hserve Hcreated.
  destruct (serve_memory_cases (POST_albums b) d)
    as [[Hs _]|(b' & e & Hb & Hu & Hv & Hfree & Hd')].
  { rewrite Hserve in Hs. by destruct Hs. }
  rewrite Hserve in Hd'. injection Hd' as -> ->.
  pose proof (keyed_by_ID_insert d e Hd) as Hkeyed.
  destruct (GetAlbums_listing _ Hkeyed) as (l & Hl & Hperm & Hsorted).
  exists e, l. split_and!; try done.
  - unfold request. rewrite serve_GET_albums.
    change (db_GetAlbums database (<[ID e:=e]> d))
      with (GetAlbums (<[ID e:=e]> d), <[ID e:=e]> d).
    by rewrite Hl.
  - rewrite Hperm. apply elem_of_values; [done|]. apply lookup_insert_eq.
  - rewrite Hperm, length_fmap, length_map_to_list. by apply map_size_insert_None.
Qed.

Lemma created_album_is_listed_witness :
  ∃ e l,
    json_response 201 ∅ (Marshal_Album a9) = json_response StatusCreated ∅ (Marshal_Album e) ∧
    serve database (request "GET" "/albums") (<["a9"%string := a9]> newTestServer)
    = (json_response StatusOK ∅ (JArray (Marshal_Album <$> l)),
       <["a9"%string := a9]> newTestServer) ∧
    e ∈ l ∧ length l = S (size newTestServer) ∧ StronglySorted ascending_ID l.
Proof.
  exact (created_album_is_listed a9_body newTestServer (<["a9"%string := a9]> newTestServer)
           (json_response 201 ∅ (Marshal_Album a9))
           (keyed_by_ID_AddAlbums [a2; a1] NewMemoryDatabase keyed_by_ID_New)
           eq_refl eq_refl).
Defined.

(** ** Encoding and decoding albums *)



(** ** Decoding a request object *)

Lemma set_field_mismatch f v a :
  mismatch f v = true → ∃ e, set_field f v a = inr e.
Proof.
  destruct f, v; simpl; try done; eauto.
  intros Hz. apply negb_true_iff in Hz. rewrite Hz. eauto.
Qed.

Lemma set_field_fits f v a :
  mismatch f v = false →
  ∃ a', set_field f v a = inl a'
        ∧ (v ≠ JNull → field_of f a' = v)
        ∧ (v = JNull → a' = a).
Proof.
  destruct f, v; simpl; intros Hz; try discriminate Hz;
    try (apply negb_false_iff in Hz; rewrite Hz);
    eexists; (split; [reflexivity|]); naive_solver.
Qed.

Lemma json_Unmarshal_snoc members kv a0 :
  json_Unmarshal (JObject (members ++ [kv])) a0
  = decode_member (json_Unmarshal (JObject members) a0) kv.
Proof. simpl. by rewrite foldl_snoc. Qed.

(** X10: of several members of a request object that name one field,
    the last one decides: a last member whose value fits the field gives
    the field that value, whatever came before, and a last member [null]
    leaves the album as the members before it made it. *)
Theorem last_member_decides
    (members : list (string * json)) (k : string) (v : json) (f : field) (a0 : Album) :
  lookup_field k = Some f → mismatch f v = false →
  (v ≠ JNull →
   field_of f (json_Unmarshal (JObject (members ++ [(k, v)])) a0).1 = v)
  ∧ (v = JNull →
     json_Unmarshal (JObject (members ++ [(k, v)])) a0
     = json_Unmarshal (JObject members) a0).
Proof.
  intros Hk Hfit. rewrite json_Unmarshal_snoc.
  destruct (json_Unmarshal (JObject members) a0) as [a err].
  unfold decode_member. cbn [fst snd]. rewrite Hk.
  destruct (set_field_fits f v a Hfit) as (a' & -> & Hval & Hnull).
  split.
  - intros Hv. by apply Hval.
  - intros Hv. by rewrite (Hnull Hv).
Qed.

Lemma last_member_decides_witness :
  field_of FID
    (json_Unmarshal
       (JObject ([("id"%string, JString "a1"); ("id"%string, JInt 7)]
                 ++ [("ID"%string, JString "a9")])) Album_zero).1
  = JString "a9".
Proof.
  destruct (last_member_decides [("id"%string, JString "a1"); ("id"%string, JInt 7)]
              "ID" (JString "a9") FID Album_zero eq_refl eq_refl) as [Hlast _].
  apply Hlast. discriminate.
Defined.

Lemma decode_members_known members : ∀ st,
  foldl decode_member st members
  = foldl decode_member st (filter (λ kv, ignored kv = false) members).
Proof.
  induction members as [|kv members IH]; intros st; [done|].
  rewrite filter_cons. simpl. case_decide as Hk.
  - simpl. apply IH.
  - rewrite IH. f_equal. unfold decode_member. unfold ignored in Hk.
    destruct (lookup_field kv.1) as [f|]; [|done].
    destruct kv.2; try done. destruct st as [a e]. by destruct f.
Qed.

(** The answer to a create depends on its body only through what the
    body decodes to. *)
Lemma serve_POST_same_decoding (D : Database) b1 b2 (σ : db_state D) :
  Unmarshal b1 Album_zero = Unmarshal b2 Album_zero →
  serve D (POST_albums b1) σ = serve D (POST_albums b2) σ.
Proof.
  intros Hu. unfold serve, ServeHTTP, POST_albums, addAlbum, readJSON. simpl.
  by rewrite Hu.
Qed.

(** X11: members of a request object whose key names no field of the
    album, and members whose value is [null], are ignored wherever they
    stand: the object and the object without them are decoded alike,
    album and error, and a create with the one body is answered as a
    create with the other, with the same effect on the database. *)
Theorem unknown_and_null_members_ignored (members : list (string * json)) :
  (∀ a0, json_Unmarshal (JObject members) a0
         = json_Unmarshal (JObject (filter (λ kv, ignored kv = false) members)) a0)
  ∧ (∀ (D : Database) (σ : db_state D),
       serve D (POST_albums (TextOf (JObject members))) σ
       = serve D (POST_albums
                    (TextOf (JObject (filter (λ kv, ignored kv = false) members)))) σ).
Proof.
  split.
  - intros a0. apply decode_members_known.
  - intros D σ. apply serve_POST_same_decoding. unfold Unmarshal, json_Unmarshal.
    by rewrite (decode_members_known members (Album_zero, None)).
Qed.





Lemma decode_members_error members : ∀ st,
  is_Some (foldl decode_member st members).2
  ↔ is_Some st.2
    ∨ Exists (λ kv, ∃ f, lookup_field kv.1 = Some f ∧ mismatch f kv.2 = true) members.
Proof.
  induction members as [|kv members IH]; intros st; simpl.
  { rewrite Exists_nil. naive_solver. }
  rewrite IH, Exists_cons. unfold decode_member at 1.
  destruct (lookup_field kv.1) as [f|] eqn:Hk.
  - destruct (mismatch f kv.2) eqn:Hm.
    + destruct (set_field_mismatch f kv.2 st.1 Hm) as [e ->]. simpl.
      split; [|destruct (st.2); eauto].
      intros _. right. left. eauto.
    + destruct (set_field_fits f kv.2 st.1 Hm) as (a' & -> & _). simpl.
      split; [naive_solver|].
      intros [?|[(f' & Hf' & Hm')|?]]; [by left| |by right].
      simplify_eq. congruence.
  - split; [naive_solver|].
    intros [?|[(f' & Hf' & _)|?]]; [by left|done|by right].
Qed.

(** X13: a request object fails to decode exactly when one of its
    members names a field and has a value that does not fit it (a
    number for a string, a string or a fraction for the price, a price
    beyond 64 bits); such a create is answered 400 [malformed-json] with
    a message, for any database, which is not called. *)
Theorem decode_fails_iff_mismatch (members : list (string * json)) :
  (is_Some (json_Unmarshal (JObject members) Album_zero).2
   ↔ Exists (λ kv, ∃ f, lookup_field kv.1 = Some f ∧ mismatch f kv.2 = true) members)
  ∧ (Exists (λ kv, ∃ f, lookup_field kv.1 = Some f ∧ mismatch f kv.2 = true) members →
     ∀ (D : Database) (σ : db_state D),
     ∃ msg,
       serve D (POST_albums (TextOf (JObject members))) σ
       = (json_response StatusBadRequest ∅
            (envelope_with StatusBadRequest ErrorMalformedJSON
               (JObject [("message"%string, JString msg)])), σ)).
Proof.
  assert (is_Some (json_Unmarshal (JObject members) Album_zero).2
          ↔ Exists (λ kv, ∃ f, lookup_field kv.1 = Some f ∧ mismatch f kv.2 = true)
              members) as Hiff.
  { simpl. rewrite decode_members_error. simpl. split; [|by right].
    intros [[? [=]]|?]; done. }
  split; [exact Hiff|].
  intros Hex D σ. apply Hiff in Hex as [e He].
  destruct (json_Unmarshal (JObject members) Album_zero) as [a err] eqn:Hu.
  simpl in He. subst err.
  exists (json_error_Error (TypeError e)).
  apply (serve_POST_unmarshal_error D _ a). unfold Unmarshal. by rewrite Hu.
Qed.

Lemma decode_fails_iff_mismatch_witness :
  ∃ msg,
    serve database
      (POST_albums (TextOf (JObject [("id"%string, JString "a9");
                                     ("price"%string, JFloat "12.5")])))
      newTestServer
    = (json_response StatusBadRequest ∅
         (envelope_with StatusBadRequest ErrorMalformedJSON
            (JObject [("message"%string, JString msg)])), newTestServer).
Proof.
  destruct (decode_fails_iff_mismatch [("id"%string, JString "a9");
                                       ("price"%string, JFloat "12.5")]) as [_ Hbad].
  apply Hbad. apply Exists_cons_tl, Exists_cons_hd. exists FPrice. split; reflexivity.
Defined.

(** X14: a create whose body is a JSON value other than an object or
    [null] (an array, a string, a number, a boolean) is answered 400
    [malformed-json], the message naming the kind of the value, for any
    database, which is not called. *)
Theorem non_object_body_is_malformed (D : Database) (σ : db_state D) (v : json) :
  (∀ members, v ≠ JObject members) → v ≠ JNull →
  serve D (POST_albums (TextOf v)) σ
  = (json_response StatusBadRequest ∅
       (envelope_with StatusBadRequest ErrorMalformedJSON
          (JObject [("message"%string,
                     JString ("json: cannot unmarshal " +:+ json_kind v
                                +:+ " into Go value of type main.Album"))])), σ).
Proof.
  intros Hobj Hnull.
  apply (serve_POST_unmarshal_error D _ Album_zero (TypeError (mkTypeError (json_kind v) None))).
  destruct v; try done. by destruct (Hobj members).
Qed.

Lemma non_object_body_is_malformed_witness :
  serve database (POST_albums (TextOf (JArray []))) newTestServer
  = (json_response 400 ∅
       (envelope_with 400 "malformed-json"
          (JObject [("message"%string,
                     JString "json: cannot unmarshal array into Go value of type main.Album")])),
     newTestServer).
Proof.
  apply (non_object_body_is_malformed database newTestServer (JArray [])); discriminate.
Defined.

(** * Properties of the server without the error envelope *)

Lemma http_Error_fresh msg code :
  Result (http_Error NewRecorder msg code) = text_response code msg.
Proof. done. Qed.

Lemma missing_of_nil album :
  Lean.missing_of album = [] ↔ ID album ≠ "" ∧ Title album ≠ "" ∧ Artist album ≠ "".
Proof.
  unfold Lean.missing_of.
  destruct (String.eqb_spec (ID album) ""), (String.eqb_spec (Title album) ""),
    (String.eqb_spec (Artist album) ""); simpl; naive_solver.
Qed.

Lemma issues_of_missing_of album :
  issues_of album = ∅ ↔ Lean.missing_of album = [] ∧ 0 ≤ Price album < 100000.
Proof. rewrite issues_of_empty, missing_of_nil. naive_solver. Qed.

Lemma slice_from_prefix p s : Lean.slice_from (String.length p) (p +:+ s) = s.
Proof.
  induction p as [|a p IH]; [done|].
  change (String a p +:+ s) with (String a (p +:+ s)). simpl. exact IH.
Qed.

Section LeanServeFacts.
Context (D : Database).

Lemma lean_serve_GET_albums body σ :
  Lean.serve D (mkRequest "GET" "/albums" body) σ =
    let '((albums, err), σ') := db_GetAlbums D σ in
    match err, albums with
    | Some _, _ => (text_response StatusInternalServerError "error fetching albums", σ')
    | None, Some l =>
        (mkResponse StatusOK {[ "Content-Type"%string := "application/json"%string ]}
           [Indented (JArray (Lean.Marshal_Album <$> l))], σ')
    | None, None =>
        (mkResponse StatusOK {[ "Content-Type"%string := "application/json"%string ]}
           [Indented JNull], σ')
    end.
Proof.
  unfold Lean.serve, Lean.ServeHTTP, Lean.getAlbums. simpl.
  destruct (db_GetAlbums D σ) as [[[l|] [e|]] σ']; done.
Qed.

Lemma lean_serve_POST_read_error e σ :
  Lean.serve D (mkRequest "POST" "/albums" (ErrReader e)) σ
  = (text_response StatusInternalServerError "error reading body", σ).
Proof. done. Qed.

Lemma lean_serve_POST_unmarshal_error b album err σ :
  Unmarshal b Album_zero = (album, Some err) →
  Lean.serve D (POST_albums b) σ
  = (text_response StatusBadRequest
       ("error unmarshaling JSON: " +:+ json_error_Error err), σ).
Proof.
  intros Hu. unfold Lean.serve, Lean.ServeHTTP, POST_albums, Lean.addAlbum, Lean.readJSON.
  simpl. by rewrite Hu.
Qed.

Lemma lean_serve_POST_decoded b album σ :
  Unmarshal b Album_zero = (album, None) →
  Lean.serve D (POST_albums b) σ =
    if bool_decide (Lean.missing_of album = []) then
      let '(err, σ') := db_AddAlbum D album σ in
      if bool_decide (err = Some ErrAlreadyExists) then
        (text_response StatusConflict ("album " +:+ ID album +:+ " already exists"), σ')
      else if bool_decide (err = None) then
        (mkResponse StatusCreated ∅ [Indented (Lean.Marshal_Album album)], σ')
      else (text_response StatusInternalServerError "error adding album", σ')
    else
      (text_response StatusBadRequest
         ("missing fields: " +:+ Lean.strings_Join (Lean.missing_of album) ", "), σ).
Proof.
  intros Hu. unfold Lean.serve, Lean.ServeHTTP, POST_albums, Lean.addAlbum, Lean.readJSON.
  simpl. rewrite Hu. simpl.
  destruct (Lean.missing_of album) as [|m ms] eqn:Hm; simpl.
  - destruct (db_AddAlbum D album σ) as [[e|] σ']; simpl; [|done].
    by repeat case_bool_decide; simplify_eq.
  - done.
Qed.

Lemma lean_albumsIDRegexp_item id :
  id ≠ "" → no_slash id = true → Lean.albumsIDRegexp ("/albums/" +:+ id) = true.
Proof.
  intros Hne Hns. unfold Lean.albumsIDRegexp.
  assert (after_prefix "/albums/" ("/albums/" +:+ id) = Some id) as ->
    by by apply after_prefix_Some.
  rewrite Hns. by destruct (String.eqb_spec id "").
Qed.

Lemma lean_serve_GET_item id body σ :
  id ≠ "" → no_slash id = true →
  Lean.serve D (mkRequest "GET" ("/albums/" +:+ id) body) σ =
    let '((album, err), σ') := db_GetAlbumByID D id σ in
    if bool_decide (err = Some ErrDoesNotExist) then
      (text_response StatusNotFound "404 page not found", σ')
    else if bool_decide (err = None) then
      (mkResponse StatusOK {[ "Content-Type"%string := "application/json"%string ]}
         [Indented (Lean.Marshal_Album album)], σ')
    else (text_response StatusInternalServerError "error fetching album", σ').
Proof.
  intros Hne Hns. unfold Lean.serve, Lean.ServeHTTP. cbn [URL_Path Method].
  rewrite item_not_collection, (lean_albumsIDRegexp_item _ Hne Hns), slice_from_prefix.
  cbn [String.eqb Ascii.eqb Bool.eqb]. unfold Lean.getAlbumByID.
  destruct (db_GetAlbumByID D id σ) as [[album [e|]] σ']; simpl; [|done].
  by repeat case_bool_decide; simplify_eq.
Qed.

End LeanServeFacts.

(** ** The two servers compared *)

Lemma reAlbumsID_slice path :
  reAlbumsID path
  = if Lean.albumsIDRegexp path
    then [path; Lean.slice_from (String.length "/albums/") path] else [].
Proof.
  unfold reAlbumsID, Lean.albumsIDRegexp.
  destruct (after_prefix "/albums/" path) as [rest|] eqn:E; [|done].
  apply after_prefix_Some in E. subst path. rewrite slice_from_prefix.
  by destruct (negb (String.eqb rest "") && no_slash rest).
Qed.

Lemma match_slice path :
  match_ path reAlbumsID [""]
  = (Lean.albumsIDRegexp path,
     [if Lean.albumsIDRegexp path
      then Lean.slice_from (String.length "/albums/") path else ""%string]).
Proof. unfold match_. rewrite reAlbumsID_slice. by destruct (Lean.albumsIDRegexp path). Qed.

(** X15: the two ways of finding the ID of an item route agree: the
    pattern with a group that [match] binds, and the pattern without
    group followed by the slice of the path after [/albums/].  Both
    accept the same paths, and for an accepted path both give the
    segment after [/albums/], which is not empty and has no slash. *)
Theorem item_id_group_is_slice (path : string) :
  match_ path reAlbumsID [""]
  = (Lean.albumsIDRegexp path,
     [if Lean.albumsIDRegexp path
      then Lean.slice_from (String.length "/albums/") path else ""%string])
  ∧ (Lean.albumsIDRegexp path = true →
     let id := Lean.slice_from (String.length "/albums/") path in
     path = "/albums/" +:+ id ∧ id ≠ "" ∧ no_slash id = true).
Proof.
  split; [apply match_slice|].
  - unfold Lean.albumsIDRegexp.
    destruct (after_prefix "/albums/" path) as [rest|] eqn:E; [|done].
    apply after_prefix_Some in E. subst path. rewrite slice_from_prefix.
    intros [Hne Hns]%andb_true_iff. split_and!; [done| |done].
    by destruct (String.eqb_spec rest "").
Qed.

Lemma item_id_group_is_slice_witness :
  "/albums/a1"%string = "/albums/" +:+ Lean.slice_from 8 "/albums/a1"
  ∧ Lean.slice_from 8 "/albums/a1" ≠ "".
Proof.
  destruct (item_id_group_is_slice "/albums/a1") as [_ Hid].
  destruct (Hid eq_refl) as (Hpath & Hne & _).
  exact (conj Hpath Hne).
Defined.

(** X16: with the in-memory database the two servers answer every
    request with the same status code and leave the same store, except
    for a create that only the price check rejects: the server with the
    envelope answers it 400 and stores nothing, the other one goes on to
    the store (201 or 409). *)
Theorem servers_agree_up_to_price (r : Request) (d : gmap string Album) :
  (¬ only_price_rejected r →
   StatusCode (Lean.serve database r d).1 = StatusCode (serve database r d).1
   ∧ (Lean.serve database r d).2 = (serve database r d).2)
  ∧ (only_price_rejected r →
     StatusCode (serve database r d).1 = StatusBadRequest
     ∧ (serve database r d).2 = d
     ∧ (StatusCode (Lean.serve database r d).1 = StatusCreated
        ∨ StatusCode (Lean.serve database r d).1 = StatusConflict)).
Proof.
  destruct r as [method path body]. unfold only_price_rejected. cbn [URL_Path Method Body].
  destruct (String.eqb_spec path "/albums") as [->|Hpath].
  - destruct (String.eqb_spec method "GET") as [->|Hget].
    { split; [|by intros (_ & [=] & _)]. intros _.
      rewrite serve_GET_albums, lean_serve_GET_albums. done. }
    destruct (String.eqb_spec method "POST") as [->|Hpost].
    2:{ split; [|by intros (_ & ? & _)]. intros _.
        unfold Lean.serve, Lean.ServeHTTP, serve, ServeHTTP. simpl.
        apply String.eqb_neq in Hget, Hpost. by rewrite Hget, Hpost. }
    destruct body as [e|b].
    { split; [done|]. by intros (_ & _ & b & a & [=] & _). }
    change (mkRequest "POST" "/albums" (BytesReader b)) with (POST_albums b).
    destruct (Unmarshal b Album_zero) as [album [err|]] eqn:Hu.
    { rewrite (serve_POST_unmarshal_error _ _ _ _ _ Hu),
        (lean_serve_POST_unmarshal_error _ _ _ _ _ Hu).
      split; [done|]. intros (_ & _ & b' & a & [= <-] & Hu' & _). congruence. }
    rewrite (serve_POST_decoded _ _ _ _ Hu), (lean_serve_POST_decoded _ _ _ _ Hu).
    destruct (decide (Lean.missing_of album = [])) as [Hm|Hm].
    2:{ rewrite (bool_decide_eq_false_2 _ Hm).
        rewrite bool_decide_eq_false_2 by (rewrite issues_of_missing_of; tauto).
        split; [done|]. intros (_ & _ & b' & a & [= <-] & Hu' & Hm' & _). congruence. }
    rewrite (bool_decide_eq_true_2 _ Hm).
    destruct (decide (0 ≤ Price album < 100000)) as [Hp|Hp].
    + rewrite bool_decide_eq_true_2 by (by rewrite issues_of_missing_of).
      split; [|intros (_ & _ & b' & a & [= <-] & Hu' & _ & Hp'); congruence].
      intros _. simpl. unfold AddAlbum. by destruct (d !! ID album).
    + rewrite bool_decide_eq_false_2 by (rewrite issues_of_missing_of; tauto).
      split; [intros Hnot; destruct Hnot; eauto 10|].
      intros _. simpl. unfold AddAlbum. destruct (d !! ID album); simpl; eauto.
  - split; [|by intros (? & _)]. intros _.
    unfold Lean.serve, Lean.ServeHTTP, serve, ServeHTTP. cbn [URL_Path Method].
    apply String.eqb_neq in Hpath. rewrite Hpath.
    rewrite match_slice.
    destruct (Lean.albumsIDRegexp path); [|done].
    destruct (String.eqb method "GET"); [|done].
    generalize (Lean.slice_from (String.length "/albums/") path). intros id.
    unfold getAlbumByID, Lean.getAlbumByID. simpl. unfold GetAlbumByID.
    by destruct (d !! id).
Qed.

Lemma servers_agree_up_to_price_witness :
  StatusCode (Lean.serve database (POST_albums a9_body) newTestServer).1
  = StatusCode (serve database (POST_albums a9_body) newTestServer).1
  ∧ StatusCode
      (serve database
         (POST_albums (TextOf (JObject [("id"%string, JString "a9");
                                        ("title"%string, JString "Pianoman");
                                        ("artist"%string, JString "Billy Joel");
                                        ("price"%string, JInt (-1))])))
         newTestServer).1 = StatusBadRequest.
Proof.
  destruct (servers_agree_up_to_price (POST_albums a9_body) newTestServer) as [Hsame _].
  destruct (servers_agree_up_to_price
              (POST_albums (TextOf (JObject [("id"%string, JString "a9");
                                             ("title"%string, JString "Pianoman");
                                             ("artist"%string, JString "Billy Joel");
                                             ("price"%string, JInt (-1))])))
              newTestServer) as [_ Hprice].
  split.
  - apply Hsame. intros (_ & _ & b & a & Hb & Hu & _ & Hp).
    injection Hb as <-. injection Hu as <-. apply Hp. simpl. lia.
  - apply Hprice. split; [reflexivity|]. split; [reflexivity|].
    exists (TextOf (JObject [("id"%string, JString "a9");
                             ("title"%string, JString "Pianoman");
                             ("artist"%string, JString "Billy Joel");
                             ("price"%string, JInt (-1))])),
      (mkAlbum "a9" "Pianoman" "Billy Joel" (-1)).
    split; [reflexivity|]. split; [reflexivity|]. split; [reflexivity|].
    simpl. lia.
Defined.

(** ** The server without the error envelope alone *)

(** X17: the server without the envelope does not check the price: with
    the in-memory database, a create whose album has ID, title and artist
    and a free ID is answered 201 and stored whatever the price is, and
    the header that [WriteHeader] fixes for the 201 response has no
    [Content-Type]: [addAlbum] writes the status line before
    [writeJSON] sets the header, and the later change does not reach the
    response. *)
Theorem lean_create_any_price (b : bytes) (album : Album) (d : gmap string Album) :
  Unmarshal b Album_zero = (album, None) →
  ID album ≠ "" → Title album ≠ "" → Artist album ≠ "" →
  d !! ID album = None →
  Lean.serve database (POST_albums b) d
  = (mkResponse StatusCreated ∅ [Indented (Lean.Marshal_Album album)],
     <[ID album := album]> d)
  ∧ RespHeader (Lean.serve database (POST_albums b) d).1 !! "Content-Type"%string = None.
Proof.
  intros Hu Hid Htitle Hartist Hfree.
  assert (Lean.missing_of album = []) as Hm by (by apply missing_of_nil).
  rewrite (lean_serve_POST_decoded _ _ _ _ Hu), (bool_decide_eq_true_2 _ Hm).
  simpl. unfold AddAlbum. rewrite Hfree. simpl. done.
Qed.

Lemma lean_create_any_price_witness :
  Lean.serve database
    (POST_albums (TextOf (JObject [("id"%string, JString "a9");
                                   ("title"%string, JString "Pianoman");
                                   ("artist"%string, JString "Billy Joel");
                                   ("price"%string, JInt (-1))])))
    newTestServer
  = (mkResponse 201 ∅ [Indented (Lean.Marshal_Album (mkAlbum "a9" "Pianoman" "Billy Joel" (-1)))],
     <["a9"%string := mkAlbum "a9" "Pianoman" "Billy Joel" (-1)]> newTestServer).
Proof.
  destruct (lean_create_any_price
              (TextOf (JObject [("id"%string, JString "a9");
                                ("title"%string, JString "Pianoman");
                                ("artist"%string, JString "Billy Joel");
                                ("price"%string, JInt (-1))]))
              (mkAlbum "a9" "Pianoman" "Billy Joel" (-1)) newTestServer eq_refl)
    as [Hserve _]; try discriminate; [reflexivity|].
  exact Hserve.
Defined.

(** X18: for any database, the response of the server without the
    envelope is of one of three shapes: status 200 with
    [Content-Type: application/json] (no charset) and a JSON body;
    status 201 with a JSON body and no header field set by the handler;
    or a status of 400 or more written by [http.Error], plain text with
    [nosniff]. *)
Theorem lean_response_shapes (D : Database) (r : Request) (σ : db_state D) :
  (∃ b, (Lean.serve D r σ).1
        = mkResponse StatusOK {[ "Content-Type"%string := "application/json"%string ]}
            [Indented b])
  ∨ (∃ album, (Lean.serve D r σ).1
              = mkResponse StatusCreated ∅ [Indented (Lean.Marshal_Album album)])
  ∨ (∃ status msg, 400 ≤ status ∧ (Lean.serve D r σ).1 = text_response status msg).
Proof.
  destruct r as [method path body].
  unfold Lean.serve, Lean.ServeHTTP, Lean.getAlbums, Lean.addAlbum, Lean.getAlbumByID,
    Lean.readJSON, Lean.http_NotFound.
  cbn [URL_Path Method Body].
  repeat case_match; simplify_eq/=;
    try match goal with s : slice Album |- _ => destruct s end;
    first [ left; by eexists
          | right; left; by eexists
          | right; right; eexists _, _; split; [|apply http_Error_fresh]; done ].
Qed.

(** X19: for any database, a create whose album lacks ID, title or artist
    is answered 400 by the server without the envelope, in plain text,
    with the message [missing fields: ] followed by the names of the
    empty fields, in the order id, title, artist, separated by commas;
    the database is not called. *)
Theorem lean_missing_fields_message
    (D : Database) (σ : db_state D) (b : bytes) (album : Album) :
  Unmarshal b Album_zero = (album, None) →
  Lean.missing_of album ≠ [] →
  Lean.serve D (POST_albums b) σ
  = (text_response StatusBadRequest
       ("missing fields: " +:+ Lean.strings_Join (Lean.missing_of album) ", "), σ)
  ∧ sublist (Lean.missing_of album) ["id"; "title"; "artist"]%string
  ∧ (∀ name, name ∈ Lean.missing_of album ↔
             (name = "id"%string ∧ ID album = "")
             ∨ (name = "title"%string ∧ Title album = "")
             ∨ (name = "artist"%string ∧ Artist album = "")).
Proof.
  intros Hu Hm. split_and!.
  - rewrite (lean_serve_POST_decoded _ _ _ _ Hu). by rewrite (bool_decide_eq_false_2 _ Hm).
  - unfold Lean.missing_of.
    destruct (String.eqb (ID album) ""), (String.eqb (Title album) ""),
      (String.eqb (Artist album) ""); simpl;
      repeat first [apply sublist_nil_l | apply sublist_skip | apply sublist_cons].
  - intros name. unfold Lean.missing_of.
    destruct (String.eqb_spec (ID album) ""), (String.eqb_spec (Title album) ""),
      (String.eqb_spec (Artist album) ""); simpl;
      rewrite ?elem_of_cons, ?elem_of_nil; naive_solver.
Qed.

Lemma lean_missing_fields_message_witness :
  Lean.serve database (POST_albums (TextOf (JObject []))) newTestServer
  = (text_response 400 "missing fields: id, title, artist", newTestServer).
Proof.
  destruct (lean_missing_fields_message database newTestServer (TextOf (JObject []))
              Album_zero eq_refl) as (Hserve & _ & _); [discriminate|].
  exact Hserve.
Defined.

(** ** Wrapped errors *)

Lemma errors_Is_wrapped msgs e : errors_Is_chain (wrapped msgs e) e = true.
Proof.
  induction msgs as [|msg msgs IH].
  - simpl. destruct e; cbn [errors_Is_chain];
      rewrite bool_decide_eq_true_2 by done; done.
  - cbn [wrapped errors_Is_chain]. rewrite IH. apply orb_true_r.
Qed.

(** X20: a database may return its sentinel errors wrapped.  The server
    with the envelope uses [errors.Is] and still answers a wrapped
    [ErrAlreadyExists] with 409 and a wrapped [ErrDoesNotExist] with 404;
    the server without the envelope compares with [==] and answers a
    wrapped sentinel with 500. *)
Theorem wrapped_sentinels (D : Database) (σ σ' : db_state D) (msgs : list string) :
  (∀ b album,
     Unmarshal b Album_zero = (album, None) → issues_of album = ∅ →
     db_AddAlbum D album σ = (Some (wrapped msgs ErrAlreadyExists), σ') →
     serve D (POST_albums b) σ
     = (json_response StatusConflict ∅ (envelope StatusConflict ErrorAlreadyExists), σ')
     ∧ (msgs ≠ [] →
        Lean.serve D (POST_albums b) σ
        = (text_response StatusInternalServerError "error adding album", σ')))
  ∧ (∀ id album,
       id ≠ "" → no_slash id = true →
       db_GetAlbumByID D id σ = ((album, Some (wrapped msgs ErrDoesNotExist)), σ') →
       serve D (request "GET" ("/albums/" +:+ id)) σ
       = (json_response StatusNotFound ∅ (envelope StatusNotFound ErrorNotFound), σ')
       ∧ (msgs ≠ [] →
          Lean.serve D (request "GET" ("/albums/" +:+ id)) σ
          = (text_response StatusInternalServerError "error fetching album", σ'))).
Proof.
  split.
  - intros b album Hu Hv Hdb. split.
    + rewrite (serve_POST_decoded _ _ _ _ Hu), (bool_decide_eq_true_2 _ Hv), Hdb.
      simpl. by rewrite errors_Is_wrapped.
    + intros Hmsgs. apply issues_of_missing_of in Hv as [Hm _].
      rewrite (lean_serve_POST_decoded _ _ _ _ Hu), (bool_decide_eq_true_2 _ Hm), Hdb.
      destruct msgs as [|msg msgs]; [done|]. simpl.
      by repeat case_bool_decide; simplify_eq.
  - intros id album Hne Hns Hdb. split.
    + unfold request. rewrite serve_GET_item by done. rewrite Hdb.
      simpl. by rewrite errors_Is_wrapped.
    + intros Hmsgs. unfold request. rewrite lean_serve_GET_item by done. rewrite Hdb.
      destruct msgs as [|msg msgs]; [done|]. simpl.
      by repeat case_bool_decide; simplify_eq.
Qed.

Lemma wrapped_sentinels_witness :
  serve wrappingDatabase (POST_albums a9_body) ()
  = (json_response 409 ∅ (envelope 409 "already-exists"), ())
  ∧ Lean.serve wrappingDatabase (POST_albums a9_body) ()
    = (text_response 500 "error adding album", ())
  ∧ serve wrappingDatabase (request "GET" "/albums/a1") ()
    = (json_response 404 ∅ (envelope 404 "not-found"), ())
  ∧ Lean.serve wrappingDatabase (request "GET" "/albums/a1") ()
    = (text_response 500 "error fetching album", ()).
Proof.
  destruct (wrapped_sentinels wrappingDatabase () () ["insert"%string]) as [Hadd _].
  destruct (wrapped_sentinels wrappingDatabase () () ["lookup"%string]) as [_ Hget].
  destruct (Hadd a9_body a9 eq_refl) as [H409 H500];
    [apply (bool_decide_unpack _); exact I | reflexivity |].
  destruct (Hget "a1"%string Album_zero) as [H404 H500'];
    [discriminate | reflexivity | reflexivity |].
  refine (conj H409 (conj (H500 _) (conj H404 (H500' _)))); discriminate.
Defined.

(** ** Created albums stay *)

Lemma run_subseteq rs : ∀ d : gmap string Album, d ⊆ (run database rs d).2.
Proof.
  induction rs as [|r rs IH] using rev_ind; intros d; [done|].
  rewrite run_snoc. cbn [fst snd]. etrans; [apply IH|].
  destruct (serve_memory_cases r (run database rs d).2)
    as [[_ ->]|(b & e & _ & _ & _ & Hfree & ->)]; cbn [fst snd]; [done|].
  by apply insert_subseteq.
Qed.

(** X21: with the in-memory database, an album created with a 201 stays
    in the store, unchanged, through any run of later requests; when its
    ID has no slash, GET /albums/{id} after the run still answers 200
    with the album as it was created. *)
Theorem created_album_stays
    (b : bytes) (d d1 : gmap string Album) (resp : Response) (rs : list Request) :
  serve database (POST_albums b) d = (resp, d1) →
  StatusCode resp = StatusCreated →
  ∃ e,
    resp = json_response StatusCreated ∅ (Marshal_Album e) ∧
    (run database rs d1).2 !! ID e = Some e ∧
    (no_slash (ID e) = true →
     serve database (request "GET" ("/albums/" +:+ ID e)) (run database rs d1).2
     = (json_response StatusOK ∅ (Marshal_Album e), (run database rs d1).2)).
Proof.
  intros Hserve Hcreated.
  destruct (serve_memory_cases (POST_albums b) d)
    as [[Hs _]|(b' & e & _ & _ & Hv & Hfree & Hd')].
  { rewrite Hserve in Hs. by destruct Hs. }
  rewrite Hserve in Hd'. injection Hd' as -> ->.
  assert ((run database rs (<[ID e:=e]> d)).2 !! ID e = Some e) as Hstays.
  { pose proof (run_subseteq rs (<[ID e:=e]> d)) as Hsub.
    exact (lookup_weaken (<[ID e:=e]> d) (run database rs (<[ID e:=e]> d)).2 (ID e) e
             (lookup_insert_eq d (ID e) e) Hsub). }
  exists e. split_and!; try done.
  intros Hns. apply issues_of_empty in Hv as (Hid & _).
  generalize dependent (run database rs (<[ID e:=e]> d)).2.
  change (db_state database) with (gmap string Album). intros d2 Hstays.
  unfold request. rewrite serve_GET_item by done.
  simpl. unfold GetAlbumByID. simpl in Hstays. by rewrite Hstays.
Qed.

Lemma created_album_stays_witness :
  ∃ e,
    json_response 201 ∅ (Marshal_Album a9) = json_response StatusCreated ∅ (Marshal_Album e) ∧
    (run database [POST_albums a9_body; POST_albums a2_again_body]
       (<["a9"%string := a9]> newTestServer)).2 !! ID e = Some e ∧
    (no_slash (ID e) = true →
     serve database (request "GET" ("/albums/" +:+ ID e))
       (run database [POST_albums a9_body; POST_albums a2_again_body]
          (<["a9"%string := a9]> newTestServer)).2
     = (json_response StatusOK ∅ (Marshal_Album e),
        (run database [POST_albums a9_body; POST_albums a2_again_body]
           (<["a9"%string := a9]> newTestServer)).2)).
Proof.
  exact (created_album_stays a9_body newTestServer (<["a9"%string := a9]> newTestServer)
           (json_response 201 ∅ (Marshal_Album a9))
           [POST_albums a9_body; POST_albums a2_again_body] eq_refl eq_refl).
Defined.

(** ** [match] *)

Lemma bind_groups (groups : list string) : ∀ (n : nat) (pre old rest : list string),
  length pre = n → length old = length groups →
  foldl (λ vars (im : nat * string), <[im.1 := im.2]> vars) (pre ++ old ++ rest)
        (imap (λ i g, (n + i, g)%nat) groups)
  = pre ++ groups ++ rest.
Proof.
  induction groups as [|g groups IH]; intros n pre old rest Hpre Hold.
  { destruct old; [done|discriminate]. }
  destruct old as [|o old]; [discriminate|]. injection Hold as Hold.
  rewrite imap_cons. cbn [foldl fst snd].
  replace (n + 0)%nat with (length pre + 0)%nat by lia.
  rewrite insert_app_r. cbn [app].
  change (<[0%nat:=g]> (o :: old ++ rest)) with (g :: old ++ rest).
  rewrite (imap_ext _ (λ i g, (S n + i, g)%nat)) by (intros; simpl; f_equal; lia).
  rewrite (cons_middle g pre), app_assoc.
  rewrite (IH (S n) (pre ++ [g]) old rest); [|rewrite length_app; simpl; lia|done].
  by rewrite <-app_assoc.
Qed.

(** X22: [match] answers false and leaves the variables alone when the
    pattern does not match; when it matches, it binds the groups to the
    variables in order: as many first variables as there are groups take
    the groups, the others stay. *)
Theorem match_binds_groups
    (path : string) (pattern : string → list string) (vars rest : list string) :
  (pattern path = [] → match_ path pattern vars = (false, vars))
  ∧ (∀ whole groups,
       pattern path = whole :: groups → length vars = length groups →
       match_ path pattern (vars ++ rest) = (true, groups ++ rest)).
Proof.
  split.
  - intros Hp. unfold match_. by rewrite Hp.
  - intros whole groups Hp Hlen. unfold match_. rewrite Hp. simpl.
    f_equal. unfold imap.
    apply (bind_groups groups 0 [] vars rest); done.
Qed.

Lemma match_binds_groups_witness :
  match_ "/albums/a1" reAlbumsID ([""%string] ++ []) = (true, ["a1"%string] ++ []).
Proof.
  destruct (match_binds_groups "/albums/a1" reAlbumsID [""%string] []) as [_ Hbind].
  exact (Hbind "/albums/a1"%string ["a1"%string] eq_refl eq_refl).
Defined.
